(** * Matchit: a single player tile-matching game (matchit.py)

    A shallow embedding of [matchit.py] and the properties of its game
    logic: argument validation ([directory_type]), construction of the
    deck ([MatchGame.__init__]), the click handler ([play]), pair
    evaluation ([match_check]), the delayed callback ([disappear]) and
    [restart].

    The program is a tkinter application.  The widgets it owns (one
    canvas, one label) are modelled by the data the program reads back
    from them: canvas items with their ids, tags, fill and coordinates,
    and the label's options.  Window layout ([grid], the window title,
    the RESTART button widget itself) has no effect on that data and is
    left out; the button's command is the [RestartButton] event. *)

From Stdlib Require Import ZArith DecimalString Ascii.
From stdpp Require Import gmap strings list fin_maps.

Local Open Scope Z_scope.

(** ** Python values and built-ins *)

(** Exceptions the modelled code can raise. *)
Inductive exn :=
| IndexError
| ValueError
| FileNotFoundError
| NotADirectoryError
| ArgumentTypeError (msg : string)
| SystemExit (code : Z).

(** [str(n)] for an [int]. *)
Definition str (z : Z) : string := NilZero.string_of_int (Z.to_int z).

(** [l[i]]: negative indices count from the end, anything outside
    [-len(l) .. len(l)-1] raises [IndexError] (here: [None]). *)
Definition getitem {A} (l : list A) (i : Z) : option A :=
  if bool_decide (0 ≤ i) then l !! Z.to_nat i
  else if bool_decide (0 ≤ i + Z.of_nat (length l))
       then l !! Z.to_nat (i + Z.of_nat (length l))
       else None.

Definition chars (s : string) : list ascii := String.list_ascii_of_string s.

(** [s.startswith(p)] and [s.endswith(p)]. *)
Definition startswith (s p : string) : bool :=
  bool_decide (chars p `prefix_of` chars s).
Definition endswith (s p : string) : bool :=
  bool_decide (chars p `suffix_of` chars s).

(** [s.rfind(c)] for a one-character [c]: the index of its last
    occurrence, [None] standing for [-1]. *)
Fixpoint rfind (c : ascii) (l : list ascii) : option nat :=
  match l with
  | [] => None
  | a :: l' =>
      match rfind c l' with
      | Some k => Some (S k)
      | None => if bool_decide (a = c) then Some 0%nat else None
      end
  end.

(** ** [os.path] on POSIX *)

Definition curdir : string := ".".

(** [os.path.join(a, b)]. *)
Definition path_join (a b : string) : string :=
  if startswith b "/" then b
  else if bool_decide (a = "") || endswith a "/" then a +:+ b
  else a +:+ "/" +:+ b.

(** [os.path.splitext(p)]: the extension starts at the last dot of the
    last path component, unless only dots precede it there. *)
Definition splitext (p : string) : string * string :=
  let l := chars p in
  let filenameIndex := match rfind "/" l with Some k => S k | None => 0%nat end in
  match rfind "." l with
  | Some dotIndex =>
      if bool_decide (filenameIndex ≤ dotIndex)%nat
         && existsb (λ c, negb (bool_decide (c = "."%char)))
                    (take (dotIndex - filenameIndex) (drop filenameIndex l))
      then (String.string_of_list_ascii (take dotIndex l),
            String.string_of_list_ascii (drop dotIndex l))
      else (p, "")
  | None => (p, "")
  end.

(** ** The file system

    Paths are keyed as the program spells them, resolved against the
    directory the process was started in. *)
Inductive FsNode :=
| RegularFile
| Directory (entries : list string).

(** [os.path.exists(p)]. *)
Definition path_exists (fs : gmap string FsNode) (p : string) : bool :=
  bool_decide (is_Some (fs !! p)).

(** [os.listdir(p)]. *)
Definition listdir (fs : gmap string FsNode) (p : string) : exn + list string :=
  match fs !! p with
  | Some (Directory entries) => inr entries
  | Some RegularFile => inl NotADirectoryError
  | None => inl FileNotFoundError
  end.

(** ** Argument validation *)

(** The loop of [directory_type] over the listing: [count] after the
    [for]. *)
Definition gif_count (file : list string) : Z :=
  fold_left
    (λ count file_name,
       if bool_decide ((splitext file_name).2 = ".gif") then count + 1 else count)
    file 0.

(** The number of gif images a listing supplies. *)
Definition gif_images (file : list string) : nat :=
  length (filter (λ n, (splitext n).2 = ".gif") file).

(** [directory_type(entered_image_folder)]: what it prints, and what it
    returns or raises. *)
Definition directory_type (fs : gmap string FsNode) (entered_image_folder : string)
  : list string * (exn + string) :=
  let image_folder := path_join curdir entered_image_folder in
  if path_exists fs image_folder then
    match listdir fs image_folder with
    | inl e => ([], inl e)
    | inr file =>
        let count := gif_count file in
        if bool_decide (8 ≤ count) then ([], inr image_folder)
        else (["COUNT: " +:+ str count],
              inl (ArgumentTypeError
                     (entered_image_folder +:+ " must contain at least 8 gif images")))
    end
  else ([], inl (ArgumentTypeError
                   (entered_image_folder +:+ " is not a valid folder"))).

(** The command line after tokenisation by [argparse]: the two
    positionals and the [-f] flag. *)
Record CommandLine := {
  arg_color : string;
  arg_fast : bool;
  arg_image_folder : string;
}.

Definition color_choices : list string := ["blue"; "green"; "magenta"].

(** [get_arguments()]: [argparse] turns a rejected choice and an
    [ArgumentTypeError] of a [type=] function into [SystemExit(2)]; any
    other exception of the [type=] function propagates. *)
Definition get_arguments (fs : gmap string FsNode) (argv : CommandLine)
  : list string * (exn + (bool * string * string)) :=
  if bool_decide (arg_color argv ∈ color_choices) then
    match directory_type fs (arg_image_folder argv) with
    | (out, inr image_folder) => (out, inr (arg_fast argv, arg_color argv, image_folder))
    | (out, inl (ArgumentTypeError _)) => (out, inl (SystemExit 2))
    | (out, inl e) => (out, inl e)
    end
  else ([], inl (SystemExit 2)).

(** ** The toolkit: images, canvas items, the label, timers *)

(** A [tkinter.PhotoImage] object.  tkinter names the images it creates
    pyimage1, pyimage2, ...; [==] on these objects is identity, which
    is equality of that name. *)
Record PhotoImage := {
  image_name : nat;
  image_file : string;
}.

Global Instance PhotoImage_eq_dec : EqDecision PhotoImage.
Proof. solve_decision. Defined.

(** A canvas item: a rectangle ([item_image = None]) or an image item.
    [item_tags] is the item's tag list; the program only changes it
    through [itemconfigure], and the pointer tracking the toolkit does on
    its own account is not part of the model.  An image item has no
    fill, outline or width; the fields are empty there, and the program
    never addresses an image item with them: in a play an image item
    carries the tag [image] only ([reachable_game_ok]). *)
Record Item := {
  item_id : nat;
  item_image : option PhotoImage;
  item_coords : list Z;
  item_fill : string;
  item_outline : string;
  item_width : Z;
  item_tags : list string;
}.

(** The canvas: its display list, bottom first, and the id the next
    created item gets (ids start at 1 and are never reused). *)
Record Canvas := {
  items : list Item;
  next_id : nat;
}.

(** The value of a [tag=] option is a Tcl list: ["box current"] is the
    two tags [box] and [current]; reading the option back joins them
    with a space. *)
Definition tcl_list (s : string) : list string := String.words s.
Definition tcl_string (l : list string) : string := String.concat " " l.

(** What a [tagOrId] argument selects. *)
Inductive TagOrId :=
| ById (n : nat)
| ByTag (t : string).

Definition matches (sel : TagOrId) (it : Item) : Prop :=
  match sel with
  | ById n => item_id it = n
  | ByTag t => t ∈ item_tags it
  end.

Global Instance matches_dec sel it : Decision (matches sel it).
Proof. destruct sel; simpl; apply _. Defined.

(** [canvas.find_withtag(tagOrId)]: ids in display-list order. *)
Definition find_withtag (c : Canvas) (sel : TagOrId) : list nat :=
  item_id <$> filter (matches sel) (items c).

(** The item a reading command ([itemcget], [coords]) uses: the lowest
    one selected. *)
Definition first_item (c : Canvas) (sel : TagOrId) : option Item :=
  head (filter (matches sel) (items c)).

(** [canvas.itemcget(tagOrId, "tag")] and [canvas.itemcget(tagOrId,
    "fill")]; the empty string when nothing is selected. *)
Definition itemcget_tag (c : Canvas) (sel : TagOrId) : string :=
  from_option (λ it, tcl_string (item_tags it)) "" (first_item c sel).
Definition itemcget_fill (c : Canvas) (sel : TagOrId) : string :=
  from_option item_fill "" (first_item c sel).

(** [canvas.coords(tagOrId)]. *)
Definition coords (c : Canvas) (sel : TagOrId) : list Z :=
  from_option item_coords [] (first_item c sel).

Definition configure_item (fill : option string) (tag : option string)
    (it : Item) : Item :=
  {| item_id := item_id it;
     item_image := item_image it;
     item_coords := item_coords it;
     item_fill := default (item_fill it) fill;
     item_outline := item_outline it;
     item_width := item_width it;
     item_tags := from_option tcl_list (item_tags it) tag |}.

(** [canvas.itemconfigure(tagOrId, fill=..., tag=...)], either option
    possibly absent: every selected item is changed. *)
Definition itemconfigure (sel : TagOrId) (fill tag : option string)
    (c : Canvas) : Canvas :=
  {| items := (λ it, if decide (matches sel it)
                     then configure_item fill tag it else it) <$> items c;
     next_id := next_id c |}.

(** [canvas.delete(tagOrId)]. *)
Definition delete_items (sel : TagOrId) (c : Canvas) : Canvas :=
  {| items := filter (λ it, ¬ matches sel it) (items c);
     next_id := next_id c |}.

(** [canvas.create_rectangle(x1, y1, x2, y2, outline=..., width=...,
    fill=..., tag=...)]. *)
Definition create_rectangle (x1 y1 x2 y2 : Z) (outline : string) (width : Z)
    (fill tag : string) (c : Canvas) : Canvas :=
  {| items := items c ++
       [ {| item_id := next_id c; item_image := None;
            item_coords := [x1; y1; x2; y2];
            item_fill := fill; item_outline := outline; item_width := width;
            item_tags := tcl_list tag |} ];
     next_id := S (next_id c) |}.

(** [canvas.create_image(x, y, image=..., tag=...)]. *)
Definition create_image (x y : Z) (image : PhotoImage) (tag : string)
    (c : Canvas) : Canvas :=
  {| items := items c ++
       [ {| item_id := next_id c; item_image := Some image;
            item_coords := [x; y];
            item_fill := ""; item_outline := ""; item_width := 0;
            item_tags := tcl_list tag |} ];
     next_id := S (next_id c) |}.

(** The options of the score label the program sets. *)
Record Label := {
  text : string;
  fg : string;
  font : string * Z;
  height : Z;
}.

(** A callback registered with [canvas.after]; the program registers
    only [self.disappear]. *)
Inductive Callback := Disappear.

(** ** [random.shuffle]

    The generator state is the list of raw words it will deliver;
    [randbelow n] consumes one and reduces it below [n] (an exhausted
    list delivers 0). *)
Definition randbelow (n : nat) (r : list nat) : nat * list nat :=
  match r with
  | [] => (0%nat, [])
  | w :: r' => ((w mod n)%nat, r')
  end.

(** [x[i], x[j] = x[j], x[i]] *)
Definition swap_items {A} (x : list A) (i j : nat) : list A :=
  match x !! j, x !! i with
  | Some xj, Some xi => <[j := xi]> (<[i := xj]> x)
  | _, _ => x
  end.

(** The loop [for i in reversed(range(1, len(x)))] from [i] downwards. *)
Fixpoint shuffle_from {A} (i : nat) (x : list A) (r : list nat)
  : list A * list nat :=
  match i with
  | O => (x, r)
  | S k =>
      let '(j, r') := randbelow (S (S k)) r in
      shuffle_from k (swap_items x (S k) j) r'
  end.

Definition shuffle {A} (x : list A) (r : list nat) : list A * list nat :=
  shuffle_from (length x - 1) x r.

(** ** The game object *)

(** The attributes of a [MatchGame] object, the two widgets it owns, and
    the three pieces of process state its methods touch: the state of
    [random], the callbacks registered with [after] and not yet run (with
    their delay in milliseconds; every delay is [timer], so they run in
    the order they were registered), and what was printed. *)
Record MatchGame := {
  score : Z;
  color : string;
  timer : Z;
  count : Z;
  image_list : list PhotoImage;
  image_dict : gmap string PhotoImage;
  image_to_compare : list PhotoImage;
  folder_images : list PhotoImage;
  canvas : Canvas;
  scoreboard : Label;
  random_state : list nat;
  after_queue : list (Z * Callback);
  stdout : list string;
}.

Definition set_score (v : Z) (g : MatchGame) : MatchGame :=
  {| score := v; color := color g; timer := timer g; count := count g;
     image_list := image_list g; image_dict := image_dict g;
     image_to_compare := image_to_compare g; folder_images := folder_images g;
     canvas := canvas g; scoreboard := scoreboard g;
     random_state := random_state g; after_queue := after_queue g;
     stdout := stdout g |}.

Definition set_count (v : Z) (g : MatchGame) : MatchGame :=
  {| score := score g; color := color g; timer := timer g; count := v;
     image_list := image_list g; image_dict := image_dict g;
     image_to_compare := image_to_compare g; folder_images := folder_images g;
     canvas := canvas g; scoreboard := scoreboard g;
     random_state := random_state g; after_queue := after_queue g;
     stdout := stdout g |}.

Definition set_image_to_compare (v : list PhotoImage) (g : MatchGame) : MatchGame :=
  {| score := score g; color := color g; timer := timer g; count := count g;
     image_list := image_list g; image_dict := image_dict g;
     image_to_compare := v; folder_images := folder_images g;
     canvas := canvas g; scoreboard := scoreboard g;
     random_state := random_state g; after_queue := after_queue g;
     stdout := stdout g |}.

Definition set_canvas (v : Canvas) (g : MatchGame) : MatchGame :=
  {| score := score g; color := color g; timer := timer g; count := count g;
     image_list := image_list g; image_dict := image_dict g;
     image_to_compare := image_to_compare g; folder_images := folder_images g;
     canvas := v; scoreboard := scoreboard g;
     random_state := random_state g; after_queue := after_queue g;
     stdout := stdout g |}.

Definition set_scoreboard (v : Label) (g : MatchGame) : MatchGame :=
  {| score := score g; color := color g; timer := timer g; count := count g;
     image_list := image_list g; image_dict := image_dict g;
     image_to_compare := image_to_compare g; folder_images := folder_images g;
     canvas := canvas g; scoreboard := v;
     random_state := random_state g; after_queue := after_queue g;
     stdout := stdout g |}.

Definition set_after_queue (v : list (Z * Callback)) (g : MatchGame) : MatchGame :=
  {| score := score g; color := color g; timer := timer g; count := count g;
     image_list := image_list g; image_dict := image_dict g;
     image_to_compare := image_to_compare g; folder_images := folder_images g;
     canvas := canvas g; scoreboard := scoreboard g;
     random_state := random_state g; after_queue := v;
     stdout := stdout g |}.

Definition set_stdout (v : list string) (g : MatchGame) : MatchGame :=
  {| score := score g; color := color g; timer := timer g; count := count g;
     image_list := image_list g; image_dict := image_dict g;
     image_to_compare := image_to_compare g; folder_images := folder_images g;
     canvas := canvas g; scoreboard := scoreboard g;
     random_state := random_state g; after_queue := after_queue g;
     stdout := v |}.

(** [random.shuffle(self.folder_images)]: the list is shuffled in place
    and the generator advances. *)
Definition shuffle_folder_images (g : MatchGame) : MatchGame :=
  let shuffled := shuffle (folder_images g) (random_state g) in
  {| score := score g; color := color g; timer := timer g; count := count g;
     image_list := image_list g; image_dict := image_dict g;
     image_to_compare := image_to_compare g; folder_images := shuffled.1;
     canvas := canvas g; scoreboard := scoreboard g;
     random_state := shuffled.2; after_queue := after_queue g;
     stdout := stdout g |}.

(** ** Methods as state transformers that may raise

    A method body runs on the object and either completes with a value
    or stops at an exception; what it changed before the exception
    stays changed. *)
Definition M (A : Type) : Type := MatchGame → (exn + A) * MatchGame.

Definition ret {A} (a : A) : M A := λ g, (inr a, g).

Definition bind {A B} (c : M A) (k : A → M B) : M B :=
  λ g, match c g with
       | (inr a, g') => k a g'
       | (inl e, g') => (inl e, g')
       end.

Definition raise {A} (e : exn) : M A := λ g, (inl e, g).

(** Read an attribute; change the object. *)
Definition gets {A} (f : MatchGame → A) : M A := λ g, (inr (f g), g).
Definition modify (f : MatchGame → MatchGame) : M unit := λ g, (inr (), f g).

(** A partial operation, raising [e] where it has no result. *)
Definition try {A} (e : exn) (o : option A) : M A :=
  match o with
  | Some a => ret a
  | None => raise e
  end.

(** An [if] without [else]. *)
Definition when (b : bool) (c : M unit) : M unit := if b then c else ret ().

Declare Scope py_scope.
Delimit Scope py_scope with py.
Notation "x <- c1 ;; c2" := (bind c1 (λ x, c2))
  (at level 100, c1 at next level, right associativity) : py_scope.
Notation "c1 ;; c2" := (bind c1 (λ _, c2))
  (at level 100, right associativity) : py_scope.

Definition on_canvas (f : Canvas → Canvas) : M unit :=
  modify (λ g, set_canvas (f (canvas g)) g).

Definition print (line : string) : M unit :=
  modify (λ g, set_stdout (stdout g ++ [line]) g).

(** [self.scoreboard.configure(...)] with the options given. *)
Definition scoreboard_configure (text' fg' : option string)
    (font' : option (string * Z)) (height' : option Z) : M unit :=
  modify (λ g, set_scoreboard
                 {| text := default (text (scoreboard g)) text';
                    fg := default (fg (scoreboard g)) fg';
                    font := default (font (scoreboard g)) font';
                    height := default (height (scoreboard g)) height' |} g).

(** [self.canvas.after(ms, callback)]. *)
Definition after (ms : Z) (cb : Callback) : M unit :=
  modify (λ g, set_after_queue (after_queue g ++ [(ms, cb)]) g).

Definition newline : string := String (ascii_of_nat 10) "".

(** [score_update(self)].  The label's [update()] redraws; events are
    handled one at a time in this model, none inside a handler. *)
Definition score_update : M unit :=
  (score <- gets score ;;
   scoreboard_configure (Some ("Score: " +:+ str score)) None None None)%py.

(** [game_over(self)] *)
Definition game_over : M unit :=
  (score <- gets score ;;
   count <- gets count ;;
   scoreboard_configure
     (Some ("Game Over!" +:+ newline +:+
            "Score: " +:+ str score +:+ newline +:+
            "Number of tries: " +:+ str count))
     (Some "red") (Some ("Helvetica", 16)) (Some 4))%py.

(** [disappear(self)] *)
Definition disappear : M unit :=
  (on_canvas (delete_items (ByTag "image")) ;;
   modify (set_image_to_compare []) ;;
   on_canvas (itemconfigure (ByTag "selected") None (Some "box current")))%py.

(** [match_check(self)] *)
Definition match_check : M unit :=
  (image_to_compare0 <- gets image_to_compare ;;
   when (bool_decide (length image_to_compare0 = 2%nat))
     (modify (λ g, set_count (count g + 1) g) ;;
      first <- try IndexError (getitem image_to_compare0 0) ;;
      second <- try IndexError (getitem image_to_compare0 1) ;;
      let image_match := bool_decide (first = second) in
      when image_match
        (color <- gets color ;;
         on_canvas (itemconfigure (ByTag "selected") (Some color) (Some "done"))) ;;
      count <- gets count ;;
      when (bool_decide (13 < count))
        (modify (λ g, set_score (score g - 10) g) ;;
         score_update) ;;
      timer <- gets timer ;;
      after timer Disappear))%py.

(** [restart(self)] *)
Definition restart : M unit :=
  (modify (set_score 100) ;;
   modify (set_count 0) ;;
   scoreboard_configure None (Some "blue") (Some ("Helvetica", 32)) (Some 2) ;;
   score_update ;;
   modify shuffle_folder_images ;;
   on_canvas (itemconfigure (ByTag "done") (Some "yellow") (Some "box current")))%py.

(** ** The click handler

    [canvas.find_closest(x, y)] is the toolkit's hit test: it answers
    with a tuple holding the id of the item closest to the point, the
    topmost one when several are equally close.  The handler is modelled
    for any such function. *)
Section Handlers.

Variable find_closest : Canvas → Z → Z → list nat.

(** [play(self, event)].  A one-element tuple passed as [tagOrId]
    addresses the item whose id it holds.  Coordinates are whole numbers
    here; the halves taken are halves of the side of a rectangle, 120. *)
Definition play (event_x event_y : Z) : M unit :=
  (cv <- gets canvas ;;
   let square_clicked := find_closest cv event_x event_y in
   item_id <- try IndexError (getitem square_clicked 0) ;;
   image_to_compare0 <- gets image_to_compare ;;
   when (bool_decide (length image_to_compare0 ≤ 1)%nat)
     (when (bool_decide (itemcget_tag cv (ById item_id) = "box current"))
        (when (bool_decide (itemcget_fill cv (ById item_id) = "yellow"))
           (on_canvas (itemconfigure (ById item_id) None (Some "selected")) ;;
            cv <- gets canvas ;;
            match coords cv (ById item_id) with
            | [x1; y1; x2; y2] =>
                let x := (x2 - x1) / 2 in
                let y := (y2 - y1) / 2 in
                folder_images0 <- gets folder_images ;;
                get_image <- try IndexError
                               (getitem folder_images0 (Z.of_nat item_id - 1)) ;;
                on_canvas (create_image (x1 + x) (y1 + y) get_image "image") ;;
                folder_images1 <- gets folder_images ;;
                image <- try IndexError
                           (getitem folder_images1 (Z.of_nat item_id - 1)) ;;
                modify (λ g, set_image_to_compare (image_to_compare g ++ [image]) g)
            | _ => raise ValueError
            end)) ;;
      match_check) ;;
   cv <- gets canvas ;;
   when (bool_decide (length (find_withtag cv (ByTag "done")) = 16%nat))
     (print "done" ;;
      game_over))%py.

(** What the main loop dispatches: a left click on the canvas, a press
    of the RESTART button, and the expiry of the oldest registered
    [after] callback. *)
Inductive Event :=
| Button1 (x y : Z)
| RestartButton
| TimerFires.

Definition run_callback (cb : Callback) : M unit :=
  match cb with
  | Disappear => disappear
  end.

Definition handle (ev : Event) : M unit :=
  match ev with
  | Button1 x y => play x y
  | RestartButton => restart
  | TimerFires =>
      (q <- gets after_queue ;;
       match q with
       | [] => ret ()
       | (_, cb) :: q' => modify (set_after_queue q') ;; run_callback cb
       end)%py
  end.

(** The object after a sequence of events; an exception in a handler is
    reported by the main loop, which goes on with the object as it is. *)
Definition run (evs : list Event) (g : MatchGame) : MatchGame :=
  fold_left (λ g ev, (handle ev g).2) evs g.

End Handlers.

(** ** Construction *)

(** The loop of [__init__] over the listing of the folder: every name
    ending in [.gif] is loaded, entered in [image_dict] and appended to
    [image_list].  Loading is taken to succeed. *)
Definition load_images (listing : list string)
  : gmap string PhotoImage * list PhotoImage :=
  fold_left
    (λ '(image_dict, image_list) file_name,
       if endswith file_name ".gif" then
         let image := {| image_name := S (length image_list);
                         image_file := file_name |} in
         (<[file_name := image]> image_dict, image_list ++ [image])
       else (image_dict, image_list))
    listing (∅, []).

(** [range(0, 500, 125)] *)
Definition grid_offsets : list Z := [0; 125; 250; 375].

(** The two nested loops creating the 4x4 grid. *)
Definition create_grid (color : string) (c : Canvas) : Canvas :=
  fold_left
    (λ c x,
       fold_left
         (λ c y, create_rectangle (5 + x) (5 + y) (125 + x) (125 + y)
                   color 5 "yellow" "box current" c)
         grid_offsets c)
    grid_offsets c.

(** A [tkinter.Canvas] just created. *)
Definition empty_canvas : Canvas := {| items := []; next_id := 1 |}.

(** [MatchGame.__init__(self, parent, player_color, folder, delay)]:
    [os.chdir(folder)] followed by [os.listdir()] lists [folder]. *)
Definition MatchGame_init (fs : gmap string FsNode) (random_state : list nat)
    (player_color folder : string) (delay : Z) : exn + MatchGame :=
  match listdir fs folder with
  | inl e => inl e
  | inr listing =>
      let '(image_dict, image_list) := load_images listing in
      let '(folder_images, random_state) :=
        shuffle (image_list ++ image_list) random_state in
      inr {| score := 100;
             color := player_color;
             timer := delay * 1000;
             count := 0;
             image_list := image_list;
             image_dict := image_dict;
             image_to_compare := [];
             folder_images := folder_images;
             canvas := create_grid player_color empty_canvas;
             scoreboard := {| text := "Score: " +:+ str 100; fg := "blue";
                              font := ("Helvetica", 32); height := 2 |};
             random_state := random_state;
             after_queue := [];
             stdout := [] |}
  end.

(** [main()] up to the main loop: what was printed, and the game object
    or the exception that ended the process. *)
Definition main (fs : gmap string FsNode) (random_state : list nat)
    (argv : CommandLine) : list string * (exn + MatchGame) :=
  match get_arguments fs argv with
  | (out, inl e) => (out, inl e)
  | (out, inr (fast, color, image_folder)) =>
      let speed := if (fast : bool) then 1 else 3 in
      (out, MatchGame_init fs random_state color image_folder speed)
  end.

(** ** Plays of the game *)

(** The objects a play can bring about: the one [main] builds, and what
    any event makes of one. *)
Inductive reachable (find_closest : Canvas → Z → Z → list nat)
  : MatchGame → Prop :=
| reachable_main fs random_state argv out g :
    main fs random_state argv = (out, inr g) →
    reachable find_closest g
| reachable_event g ev :
    reachable find_closest g →
    reachable find_closest (handle find_closest ev g).2.

(** ** Vocabulary of the specification *)

(** The three states of a slot are the three tag lists a grid rectangle
    carries. *)
Inductive SlotState := Concealed | Revealed | Matched.

Definition state_of_tags (tags : list string) : option SlotState :=
  if bool_decide (tags = tcl_list "box current") then Some Concealed
  else if bool_decide (tags = tcl_list "selected") then Some Revealed
  else if bool_decide (tags = tcl_list "done") then Some Matched
  else None.

Definition tags_of (s : SlotState) : list string :=
  match s with
  | Concealed => ["box"; "current"]
  | Revealed => ["selected"]
  | Matched => ["done"]
  end.

(** The state of slot [i], the rectangle with id [i], [1 ≤ i ≤ 16]. *)
Definition slot_state (c : Canvas) (i : nat) : option SlotState :=
  it ← first_item c (ById i); state_of_tags (item_tags it).

(** The condition under which [play] reports the end of the game. *)
Definition is_game_over (g : MatchGame) : bool :=
  bool_decide (length (find_withtag (canvas g) (ByTag "done")) = 16%nat).

(** What the label shows once [game_over] has run. *)
Definition game_over_label (g : MatchGame) : Label :=
  {| text := "Game Over!" +:+ newline +:+
             "Score: " +:+ str (score g) +:+ newline +:+
             "Number of tries: " +:+ str (count g);
     fg := "red"; font := ("Helvetica", 16); height := 4 |}.

(** ** Sample data for concrete runs *)

(** A hit test to run examples with: the distance of a point to the box
    of an item, images being taken as 100 pixels square, and the topmost
    of the closest items. *)
Definition box_distance (x1 y1 x2 y2 x y : Z) : Z :=
  Z.max 0 (Z.max (x1 - x) (x - x2)) + Z.max 0 (Z.max (y1 - y) (y - y2)).

Definition item_distance (it : Item) (x y : Z) : Z :=
  match item_coords it with
  | [x1; y1; x2; y2] => box_distance x1 y1 x2 y2 x y
  | [cx; cy] => box_distance (cx - 50) (cy - 50) (cx + 50) (cy + 50) x y
  | _ => 0
  end.

Definition closer (x y : Z) (best : option Item) (it : Item) : option Item :=
  match best with
  | None => Some it
  | Some b => if bool_decide (item_distance it x y ≤ item_distance b x y)
              then Some it else Some b
  end.

Definition sample_find_closest (c : Canvas) (x y : Z) : list nat :=
  match fold_left (closer x y) (items c) None with
  | Some it => [item_id it]
  | None => []
  end.

(** A folder with exactly eight gif images and one other file. *)
Definition eight_gifs : list string :=
  ["a.gif"; "b.gif"; "c.gif"; "d.gif"; "notes.txt";
   "e.gif"; "f.gif"; "g.gif"; "h.gif"].

(** A folder with nine gif images, and one with seven. *)
Definition nine_gifs : list string := eight_gifs ++ ["i.gif"].
Definition seven_gifs : list string :=
  ["a.gif"; "b.gif"; "c.gif"; "d.gif"; "e.gif"; "f.gif"; "g.gif"; "h.png"].

Definition sample_fs : gmap string FsNode :=
  <["./tiles" := Directory eight_gifs]>
    (<["./many" := Directory nine_gifs]>
       (<["./few" := Directory seven_gifs]> ∅)).

Definition sample_argv (folder : string) : CommandLine :=
  {| arg_color := "blue"; arg_fast := true; arg_image_folder := folder |}.

(** The game [matchit.py -f blue tiles] starts with, the generator
    delivering the words of [random_state]. *)
Definition sample_game (random_state : list nat) : MatchGame :=
  match (main sample_fs random_state (sample_argv "tiles")).2 with
  | inr g => g
  | inl _ =>
      {| score := 0; color := ""; timer := 0; count := 0; image_list := [];
         image_dict := ∅; image_to_compare := []; folder_images := [];
         canvas := empty_canvas;
         scoreboard := {| text := ""; fg := ""; font := ("", 0); height := 0 |};
         random_state := []; after_queue := []; stdout := [] |}
  end.

(** The centre of the grid rectangle with id [i], [1 ≤ i ≤ 16]: ids run
    down the columns. *)
Definition click_on (i : nat) : Event :=
  Button1 (65 + 125 * (Z.of_nat (i - 1) / 4)) (65 + 125 * (Z.of_nat (i - 1) mod 4)).

(** Thirteen pair evaluations of the slots 1 and 2, each followed by the
    expiry of its timer. *)
Definition thirteen_pairs : list Event :=
  mjoin (replicate 13 [click_on 1; click_on 2; TimerFires]).

(** ** Shape of the canvas during a play *)

(** A grid rectangle: no image, four coordinates, and one of the three
    tag lists. *)
Definition grid_item (it : Item) : Prop :=
  item_image it = None ∧ length (item_coords it) = 4%nat ∧
  is_Some (state_of_tags (item_tags it)).

(** An image item: created after the grid, tagged [image]. *)
Definition shown_image (it : Item) : Prop :=
  item_tags it = tcl_list "image" ∧ (16 < item_id it)%nat.

(** The display list is the sixteen grid rectangles, ids 1 to 16 in this
    order, below the images shown. *)
Definition canvas_ok (c : Canvas) : Prop :=
  (∃ grid images,
     items c = grid ++ images ∧ item_id <$> grid = seq 1 16 ∧
     Forall grid_item grid ∧ Forall shown_image images) ∧
  (16 < next_id c)%nat.

(** What every object of a play satisfies. *)
Definition game_ok (g : MatchGame) : Prop :=
  (length (image_to_compare g) ≤ 2)%nat ∧
  (16 ≤ length (folder_images g))%nat ∧
  canvas_ok (canvas g).

(** The hit test answers with one item of the canvas whenever there is
    one. *)
Definition hit_test_ok (find_closest : Canvas → Z → Z → list nat) : Prop :=
  ∀ c x y, items c ≠ [] →
    ∃ i, find_closest c x y = [i] ∧ i ∈ item_id <$> items c.

(** ** The parts of [play]

    Names for the three stages of the handler, used to state what a
    click does: the test guarding a reveal, the object after the body of
    the innermost [if], and the last statement. *)
Definition revealable (g : MatchGame) (i : nat) : Prop :=
  (length (image_to_compare g) ≤ 1)%nat ∧
  itemcget_tag (canvas g) (ById i) = "box current" ∧
  itemcget_fill (canvas g) (ById i) = "yellow".

Definition reveal (i : nat) (image : PhotoImage) (x y : Z) (g : MatchGame)
  : MatchGame :=
  set_image_to_compare (image_to_compare g ++ [image])
    (set_canvas
       (create_image x y image "image"
          (itemconfigure (ById i) None (Some "selected") (canvas g))) g).

Definition play_epilogue : M unit :=
  (cv <- gets canvas ;;
   when (bool_decide (length (find_withtag cv (ByTag "done")) = 16%nat))
     (print "done" ;;
      game_over))%py.

(** ** Further vocabulary *)

(** What the label shows while the game goes on. *)
Definition score_label (g : MatchGame) : Label :=
  {| text := "Score: " +:+ str (score g); fg := "blue";
     font := ("Helvetica", 32); height := 2 |}.

(** The images of the image items on the canvas, bottom first. *)
Definition images_shown (c : Canvas) : list PhotoImage :=
  omap item_image (items c).

(** The fill a slot is drawn with: the player's colour once Matched,
    yellow before. *)
Definition fill_of (color : string) (s : SlotState) : string :=
  match s with
  | Matched => color
  | _ => "yellow"
  end.

(** An item is drawn as its state demands. *)
Definition slot_coloured (color : string) (it : Item) : Prop :=
  ∀ s, state_of_tags (item_tags it) = Some s → item_fill it = fill_of color s.

(** The object [match_check] leaves when two images [a] and [b] are
    buffered. *)
Definition evaluated (a b : PhotoImage) (g : MatchGame) : MatchGame :=
  let g1 := set_count (count g + 1) g in
  let g2 := if bool_decide (a = b)
            then set_canvas (itemconfigure (ByTag "selected") (Some (color g))
                               (Some "done") (canvas g)) g1
            else g1 in
  let g3 := if bool_decide (13 < count g + 1)
            then set_scoreboard
                   {| text := "Score: " +:+ str (score g - 10);
                      fg := fg (scoreboard g); font := font (scoreboard g);
                      height := height (scoreboard g) |}
                   (set_score (score g - 10) g2)
            else g2 in
  set_after_queue (after_queue g ++ [(timer g, Disappear)]) g3.

(** * Properties *)

(** ** Strings and validation *)

Lemma splitext_gif_endswith p :
  (splitext p).2 = ".gif" → endswith p ".gif" = true.
Proof.
  unfold splitext, endswith. intros H. apply bool_decide_eq_true.
  destruct (rfind "." (chars p)) as [d|]; [|discriminate].
  destruct (_ && _); [|discriminate]. simpl in H.
  apply (f_equal String.list_ascii_of_string) in H.
  rewrite String.list_ascii_of_string_of_list_ascii in H.
  unfold chars at 1. rewrite <- H. apply suffix_drop.
Qed.

(** The counter of [directory_type] counts the names whose extension is
    [.gif]. *)
Lemma gif_count_filter file :
  gif_count file =
  Z.of_nat (length (filter (λ n, (splitext n).2 = ".gif") file)).
Proof.
  unfold gif_count.
  assert (∀ l a, fold_left
            (λ count file_name,
               if bool_decide ((splitext file_name).2 = ".gif")
               then count + 1 else count) l a
          = a + Z.of_nat (length (filter (λ n, (splitext n).2 = ".gif") l))) as H.
  { induction l as [|n l IH]; intros a; simpl; [lia|].
    rewrite IH, filter_cons. case_bool_decide; case_decide; simpl; try done; lia. }
  rewrite H. lia.
Qed.

Lemma load_images_length listing :
  length (load_images listing).2 =
  length (filter (λ n, endswith n ".gif" = true) listing).
Proof.
  unfold load_images.
  assert (∀ l (d : gmap string PhotoImage) il,
    length (fold_left
      (λ '(image_dict, image_list) file_name,
         if endswith file_name ".gif" then
           let image := {| image_name := S (length image_list);
                           image_file := file_name |} in
           (<[file_name := image]> image_dict, image_list ++ [image])
         else (image_dict, image_list)) l (d, il)).2
    = (length il + length (filter (λ n, endswith n ".gif" = true) l))%nat) as H.
  { induction l as [|n l IH]; intros d il; simpl; [lia|].
    rewrite filter_cons. destruct (endswith n ".gif") eqn:E.
    - rewrite IH, length_app. case_decide; [simpl; lia | done].
    - rewrite IH. case_decide; [done | lia]. }
  rewrite H. simpl. lia.
Qed.

Lemma filter_length_le {A} (P Q : A → Prop)
    `{!∀ x, Decision (P x)} `{!∀ x, Decision (Q x)} (l : list A) :
  (∀ x, P x → Q x) → (length (filter P l) ≤ length (filter Q l))%nat.
Proof.
  intros HPQ. induction l as [|x l IH]; [done|].
  rewrite !filter_cons. destruct (decide (P x)) as [HP|HP].
  - rewrite decide_True by auto. simpl. lia.
  - case_decide; simpl; lia.
Qed.

(** Every name the validator counted is loaded by the constructor. *)
Lemma loaded_at_least_counted listing :
  gif_count listing ≤ Z.of_nat (length (load_images listing).2).
Proof.
  rewrite gif_count_filter, load_images_length.
  apply inj_le, filter_length_le. apply splitext_gif_endswith.
Qed.

Lemma directory_type_listing fs entered file :
  fs !! path_join curdir entered = Some (Directory file) →
  directory_type fs entered =
    if bool_decide (8 ≤ gif_count file) then ([], inr (path_join curdir entered))
    else (["COUNT: " +:+ str (gif_count file)],
          inl (ArgumentTypeError (entered +:+ " must contain at least 8 gif images"))).
Proof.
  intros H. unfold directory_type, path_exists, listdir. rewrite H.
  rewrite bool_decide_eq_true_2 by eauto. done.
Qed.

(** C5.  For a folder that exists, [directory_type] raises the error
    "must contain at least 8 gif images" exactly when the folder supplies
    fewer than 8 gif images, and then [main] builds no game object; with
    8 or more it returns the folder. *)
Theorem C5_insufficient_assets fs entered file :
  fs !! path_join curdir entered = Some (Directory file) →
  ((directory_type fs entered).2 =
     inl (ArgumentTypeError (entered +:+ " must contain at least 8 gif images"))
   ↔ (gif_images file < 8)%nat) ∧
  ((directory_type fs entered).2 = inr (path_join curdir entered)
   ↔ (8 ≤ gif_images file)%nat) ∧
  ((gif_images file < 8)%nat →
   ∀ random_state argv, arg_image_folder argv = entered →
     ∃ out e, main fs random_state argv = (out, inl e)).
Proof.
  intros H. pose proof (gif_count_filter file) as Hc. fold (gif_images file) in Hc.
  rewrite (directory_type_listing _ _ _ H).
  split; [|split].
  - case_bool_decide; simpl; split; intros; try done; lia.
  - case_bool_decide; simpl; split; intros; try done; lia.
  - intros Hlt rs argv <-. unfold main, get_arguments.
    case_bool_decide; [|eauto].
    rewrite (directory_type_listing _ _ _ H).
    rewrite bool_decide_eq_false_2 by lia. eauto.
Qed.

Lemma C5_witness :
  ((directory_type sample_fs "few").2 =
     inl (ArgumentTypeError ("few" +:+ " must contain at least 8 gif images"))
   ↔ (gif_images seven_gifs < 8)%nat) ∧
  ((directory_type sample_fs "few").2 = inr (path_join curdir "few")
   ↔ (8 ≤ gif_images seven_gifs)%nat) ∧
  ((gif_images seven_gifs < 8)%nat →
   ∀ random_state argv, arg_image_folder argv = "few" →
     ∃ out e, main sample_fs random_state argv = (out, inl e)).
Proof. apply (C5_insufficient_assets sample_fs "few" seven_gifs). reflexivity. Defined.

(** ** The deck *)

Lemma swap_items_perm {A} (x : list A) i j : swap_items x i j ≡ₚ x.
Proof.
  unfold swap_items.
  destruct (x !! j) as [xj|] eqn:Hj; [|done].
  destruct (x !! i) as [xi|] eqn:Hi; [|done].
  by apply Permutation_insert_swap.
Qed.

Lemma shuffle_from_perm {A} i (x : list A) r : (shuffle_from i x r).1 ≡ₚ x.
Proof.
  revert x r. induction i as [|k IH]; intros x r; [done|].
  simpl. destruct (randbelow (S (S k)) r) as [j r'].
  rewrite IH. apply swap_items_perm.
Qed.

(** [random.shuffle] rearranges the list, whatever the generator
    delivers. *)
Lemma shuffle_perm {A} (x : list A) r : (shuffle x r).1 ≡ₚ x.
Proof. apply shuffle_from_perm. Qed.

Lemma shuffle_length {A} (x : list A) r : length (shuffle x r).1 = length x.
Proof. by rewrite shuffle_perm. Qed.

(** The images loaded are numbered 1, 2, ... in the order of loading, so
    no two of them are the same object. *)
Lemma load_images_names listing :
  image_name <$> (load_images listing).2
  = seq 1 (length (load_images listing).2).
Proof.
  unfold load_images.
  assert (∀ l (d : gmap string PhotoImage) il,
    image_name <$> il = seq 1 (length il) →
    let r := (fold_left
      (λ '(image_dict, image_list) file_name,
         if endswith file_name ".gif" then
           let image := {| image_name := S (length image_list);
                           image_file := file_name |} in
           (<[file_name := image]> image_dict, image_list ++ [image])
         else (image_dict, image_list)) l (d, il)).2 in
    image_name <$> r = seq 1 (length r)) as H.
  { induction l as [|n l IH]; intros d il Hil; simpl; [done|].
    destruct (endswith n ".gif"); apply IH; [|done].
    rewrite fmap_app, length_app, seq_app, Hil. simpl. done. }
  by apply H.
Qed.

Lemma load_images_NoDup listing : NoDup (load_images listing).2.
Proof.
  apply (NoDup_fmap_1 image_name). rewrite load_images_names. apply NoDup_seq.
Qed.

Lemma filter_eq_absent {A} `{!EqDecision A} (a : A) (l : list A) :
  a ∉ l → filter (λ b, b = a) l = [].
Proof.
  induction l as [|x l IH]; intros Ha; [done|].
  rewrite filter_cons. apply not_elem_of_cons in Ha as [Hne Ha].
  rewrite decide_False by done. auto.
Qed.

Lemma filter_eq_NoDup {A} `{!EqDecision A} (a : A) (l : list A) :
  NoDup l → a ∈ l → length (filter (λ b, b = a) l) = 1%nat.
Proof.
  induction 1 as [|x l Hx Hl IH]; intros Ha; [by apply elem_of_nil in Ha|].
  rewrite filter_cons. apply elem_of_cons in Ha as [->|Ha].
  - rewrite decide_True by done. simpl. by rewrite filter_eq_absent.
  - rewrite decide_False by (intros ->; done). auto.
Qed.

(** What [main] hands to the board: the deck is the list of loaded
    images taken twice and rearranged, the loaded images are pairwise
    different, and there are at least eight of them. *)
Lemma main_deck fs random_state argv out g :
  main fs random_state argv = (out, inr g) →
  NoDup (image_list g) ∧
  folder_images g ≡ₚ image_list g ++ image_list g ∧
  (8 ≤ length (image_list g))%nat ∧
  ∃ listing, fs !! path_join curdir (arg_image_folder argv) = Some (Directory listing) ∧
    (8 ≤ gif_images listing)%nat ∧
    length (image_list g) = length (filter (λ n, endswith n ".gif" = true) listing).
Proof.
  unfold main, get_arguments. case_bool_decide; [|done].
  unfold directory_type, path_exists.
  case_bool_decide as Hex; [|done].
  unfold listdir at 1. destruct Hex as [node Hnode]. rewrite Hnode.
  destruct node as [|listing]; [done|].
  case_bool_decide as H8; [|done]. simpl.
  unfold MatchGame_init, listdir. rewrite Hnode.
  pose proof (load_images_NoDup listing) as Hnd.
  pose proof (loaded_at_least_counted listing) as Hle.
  pose proof (load_images_length listing) as Hlen.
  destruct (load_images listing) as [d il]. simpl in *.
  pose proof (shuffle_perm (il ++ il) random_state) as Hp.
  destruct (shuffle (il ++ il) random_state) as [fi rs'].
  intros [= <- <-]. simpl in *.
  split; [done|]. split; [done|]. split; [lia|].
  exists listing. split; [done|]. split; [|done].
  rewrite gif_count_filter in H8. unfold gif_images. lia.
Qed.

(** With exactly eight gif images in the folder the deck is sixteen
    long, and each of eight different images is in it exactly twice. *)
Lemma main_deck_of_eight fs random_state argv out g listing :
  main fs random_state argv = (out, inr g) →
  fs !! path_join curdir (arg_image_folder argv) = Some (Directory listing) →
  length (filter (λ n, endswith n ".gif" = true) listing) = 8%nat →
  length (folder_images g) = 16%nat ∧
  NoDup (image_list g) ∧ length (image_list g) = 8%nat ∧
  ∀ a, a ∈ folder_images g →
    a ∈ image_list g ∧ length (filter (λ b, b = a) (folder_images g)) = 2%nat.
Proof.
  intros Hmain Hfs H8.
  destruct (main_deck _ _ _ _ _ Hmain) as (Hnd & Hp & _ & listing' & Hfs' & _ & Hlen).
  rewrite Hfs in Hfs'. injection Hfs' as <-. rewrite H8 in Hlen.
  split; [by rewrite Hp, length_app, Hlen|].
  split; [done|]. split; [done|].
  intros a Ha. rewrite Hp in Ha.
  assert (a ∈ image_list g) as Hin by (apply elem_of_app in Ha; tauto).
  split; [done|].
  rewrite Hp, filter_app, length_app, filter_eq_NoDup by done. done.
Qed.

(** C4.  A folder with nine gif images passes validation, and the deck
    built from it has eighteen entries; of the sixteen the board uses,
    the images of [i.gif] and [a.gif] occur once. *)
Theorem C4_nine_gifs_deck :
  ∃ g, main sample_fs [] (sample_argv "many") = ([], inr g) ∧
    gif_images nine_gifs = 9%nat ∧
    length (folder_images g) = 18%nat ∧
    image_file <$> take 16 (folder_images g)
    = ["b.gif"; "c.gif"; "d.gif"; "e.gif"; "f.gif"; "g.gif"; "h.gif"; "i.gif";
       "a.gif"; "b.gif"; "c.gif"; "d.gif"; "e.gif"; "f.gif"; "g.gif"; "h.gif"].
Proof. eexists. repeat split; vm_compute; reflexivity. Qed.

(** ** Canvas items *)

Lemma tags_of_state tags s :
  state_of_tags tags = Some s → tags = tags_of s.
Proof.
  unfold state_of_tags. repeat case_bool_decide; intros [= <-]; done.
Qed.

Lemma grid_item_tags it :
  grid_item it →
  item_tags it = ["box"; "current"] ∨ item_tags it = ["selected"] ∨
  item_tags it = ["done"].
Proof.
  intros (_ & _ & [s Hs]). apply tags_of_state in Hs. destruct s; auto.
Qed.

Lemma filter_all {A} (P : A → Prop) `{!∀ x, Decision (P x)} (l : list A) :
  Forall P l → filter P l = l.
Proof.
  induction 1 as [|x l Hx Hl IH]; [done|].
  by rewrite filter_cons, decide_True, IH.
Qed.

Lemma filter_none {A} (P : A → Prop) `{!∀ x, Decision (P x)} (l : list A) :
  Forall (λ x, ¬ P x) l → filter P l = [].
Proof.
  induction 1 as [|x l Hx Hl IH]; [done|].
  by rewrite filter_cons, decide_False.
Qed.

(** [itemconfigure] keeps the ids and the order of the display list. *)
Lemma itemconfigure_ids sel fill tag c :
  item_id <$> items (itemconfigure sel fill tag c) = item_id <$> items c.
Proof.
  simpl. rewrite <- list_fmap_compose. apply list_fmap_ext.
  intros _ it _. simpl. by case_decide.
Qed.

Lemma canvas_ok_itemconfigure sel fill tag c :
  canvas_ok c →
  is_Some (state_of_tags (tcl_list tag)) →
  (∀ it, shown_image it → ¬ matches sel it) →
  canvas_ok (itemconfigure sel fill (Some tag) c).
Proof.
  intros [(grid & images & Hitems & Hids & Hgrid & Himages) Hnext] Htag Hsel.
  split; [|done]. unfold itemconfigure. cbn [items]. rewrite Hitems, fmap_app.
  eexists _, _. split; [done|]. split; [|split].
  - rewrite <- list_fmap_compose, <- Hids. apply list_fmap_ext.
    intros _ it _. simpl. by case_decide.
  - apply Forall_fmap. eapply Forall_impl; [done|].
    intros it (Himg & Hco & Hst). simpl. case_decide; [|done].
    by repeat split.
  - apply Forall_fmap. eapply Forall_impl; [done|].
    intros it Hit. simpl. rewrite decide_False; [done|]. by apply Hsel.
Qed.

Lemma shown_image_no_tag t it :
  t ≠ "image" → shown_image it → ¬ matches (ByTag t) it.
Proof.
  intros Ht [Htags _]. simpl. rewrite Htags.
  intros Hin. apply list_elem_of_singleton in Hin. done.
Qed.

Lemma canvas_ok_delete_images c :
  canvas_ok c → canvas_ok (delete_items (ByTag "image") c).
Proof.
  intros [(grid & images & Hitems & Hids & Hgrid & Himages) Hnext].
  split; [|done]. exists grid, []. simpl.
  rewrite Hitems, filter_app, app_nil_r. split; [|done].
  rewrite filter_all.
  - rewrite filter_none; [by rewrite app_nil_r|].
    eapply Forall_impl; [done|]. intros it [Htags _] Hn. apply Hn.
    simpl. rewrite Htags. by apply list_elem_of_singleton.
  - eapply Forall_impl; [done|]. intros it Hit. simpl.
    destruct (grid_item_tags _ Hit) as [-> | [-> | ->]];
      intros Hn; apply (bool_decide_pack _) in Hn; vm_compute in Hn; done.
Qed.

Lemma canvas_ok_create_image x y image c :
  canvas_ok c → canvas_ok (create_image x y image "image" c).
Proof.
  intros [(grid & images & Hitems & Hids & Hgrid & Himages) Hnext].
  split; [|simpl; lia]. eexists grid, (images ++ [_]). simpl.
  rewrite Hitems, <- app_assoc. split; [done|]. split; [done|]. split; [done|].
  apply Forall_app. split; [done|]. apply Forall_singleton. by split.
Qed.

(** An item read by id that carries the two tags [box current] is one of
    the sixteen grid rectangles. *)
Lemma available_is_grid c i it :
  canvas_ok c →
  first_item c (ById i) = Some it →
  tcl_string (item_tags it) = "box current" →
  grid_item it ∧ item_id it = i ∧ (1 ≤ i ≤ 16)%nat ∧
  item_tags it = ["box"; "current"].
Proof.
  intros [(grid & images & Hitems & Hids & Hgrid & Himages) Hnext] Hfirst Htag.
  apply head_Some_elem_of, list_elem_of_filter in Hfirst as [Hid Hin].
  simpl in Hid. rewrite Hitems in Hin. apply elem_of_app in Hin as [Hin|Hin].
  - assert (grid_item it) as Hit by (eapply Forall_forall; done).
    split; [done|]. split; [done|]. split.
    + apply (list_elem_of_fmap_2 item_id) in Hin. rewrite Hids, Hid in Hin.
      apply elem_of_seq in Hin. lia.
    + destruct (grid_item_tags _ Hit) as [H|[H|H]]; rewrite H in Htag; done.
  - assert (shown_image it) as [Hit _] by (eapply Forall_forall; done).
    rewrite Hit in Htag. done.
Qed.

Lemma canvas_ok_grid color : canvas_ok (create_grid color empty_canvas).
Proof.
  split; [|simpl; lia].
  exists (items (create_grid color empty_canvas)), [].
  rewrite app_nil_r. split; [done|]. split; [done|]. split; [|done].
  repeat constructor; done.
Qed.

(** ** Pair evaluation, concealment, restart *)

Ltac run_m :=
  unfold match_check, disappear, restart, score_update, game_over, after, print,
    play_epilogue, scoreboard_configure, on_canvas, when, try, bind, gets,
    modify, ret, raise;
  simpl.

(** What [match_check] does with two buffered images. *)
Lemma match_check_pair g a b :
  image_to_compare g = [a; b] →
  let r := match_check g in
  r.1 = inr () ∧
  count r.2 = count g + 1 ∧
  score r.2 = (if bool_decide (13 < count g + 1) then score g - 10 else score g) ∧
  canvas r.2 = (if bool_decide (a = b)
                then itemconfigure (ByTag "selected") (Some (color g))
                       (Some "done") (canvas g)
                else canvas g) ∧
  image_to_compare r.2 = [a; b] ∧
  after_queue r.2 = after_queue g ++ [(timer g, Disappear)] ∧
  folder_images r.2 = folder_images g ∧
  random_state r.2 = random_state g ∧
  stdout r.2 = stdout g ∧
  color r.2 = color g ∧ timer r.2 = timer g.
Proof.
  intros H. run_m. rewrite H. simpl.
  destruct (bool_decide (a = b)); simpl; case_bool_decide; simpl; done.
Qed.

(** With any other number of buffered images it does nothing. *)
Lemma match_check_skip g :
  length (image_to_compare g) ≠ 2%nat → match_check g = (inr (), g).
Proof. intros H. run_m. by rewrite bool_decide_eq_false_2. Qed.

Lemma length_two {A} (l : list A) : length l = 2%nat → ∃ a b, l = [a; b].
Proof. destruct l as [|a [|b [|]]]; try done. eauto. Qed.

Lemma match_check_completes g : (match_check g).1 = inr ().
Proof.
  destruct (decide (length (image_to_compare g) = 2%nat)) as [H|H].
  - apply length_two in H as (a & b & H).
    by destruct (match_check_pair g a b H) as [? _].
  - by rewrite match_check_skip.
Qed.

Lemma disappear_eq g :
  disappear g =
  (inr (), set_canvas
             (itemconfigure (ByTag "selected") None (Some "box current")
                (delete_items (ByTag "image") (canvas g)))
             (set_image_to_compare [] g)).
Proof. reflexivity. Qed.

Lemma restart_eq g :
  restart g =
  (inr (),
   set_canvas
     (itemconfigure (ByTag "done") (Some "yellow") (Some "box current") (canvas g))
     (shuffle_folder_images
        (set_scoreboard
           {| text := "Score: " +:+ str 100; fg := "blue";
              font := ("Helvetica", 32); height := 2 |}
           (set_count 0 (set_score 100 g))))).
Proof. reflexivity. Qed.

Lemma play_epilogue_eq g :
  play_epilogue g =
  (inr (), if is_game_over g
           then set_scoreboard (game_over_label g)
                  (set_stdout (stdout g ++ ["done"]) g)
           else g).
Proof. run_m. unfold is_game_over. by case_bool_decide. Qed.

(** ** The click handler *)

Lemma bind_gets {A B} (f : MatchGame → A) (k : A → M B) g :
  bind (gets f) k g = k (f g) g.
Proof. done. Qed.

Lemma bind_modify {B} f (k : unit → M B) g :
  bind (modify f) k g = k () (f g).
Proof. done. Qed.

Lemma bind_ret {A B} (a : A) (k : A → M B) g : bind (ret a) k g = k a g.
Proof. done. Qed.

Lemma bind_assoc {A B C} (c : M A) (k : A → M B) (h : B → M C) g :
  bind (bind c k) h g = bind c (λ a, bind (k a) h) g.
Proof. unfold bind. by destruct (c g) as [[e|a] g']. Qed.

Ltac mstep :=
  rewrite ?bind_assoc; try unfold on_canvas at 1;
  first [rewrite bind_gets | rewrite bind_modify | rewrite bind_ret];
  cbn beta.

Lemma filter_id_fmap (f : Item → Item) i (l : list Item) :
  (∀ it, item_id (f it) = item_id it) →
  filter (matches (ById i)) (f <$> l) = f <$> filter (matches (ById i)) l.
Proof.
  intros Hf. induction l as [|it l IH]; [done|].
  rewrite fmap_cons, !filter_cons. simpl. rewrite Hf.
  case_decide; [rewrite fmap_cons|]; by rewrite IH.
Qed.

(** Reading an item by id after an [itemconfigure]. *)
Lemma first_item_itemconfigure sel fill tag c i :
  first_item (itemconfigure sel fill tag c) (ById i)
  = (λ it, if decide (matches sel it) then configure_item fill tag it else it)
    <$> first_item c (ById i).
Proof.
  unfold first_item, itemconfigure. cbn [items].
  rewrite filter_id_fmap by (intros it; by case_decide).
  by destruct (filter _ _).
Qed.

Lemma getitem_in_range {A} (l : list A) (i : nat) :
  (1 ≤ i ≤ length l)%nat → is_Some (getitem l (Z.of_nat i - 1)).
Proof.
  intros H. unfold getitem. rewrite bool_decide_eq_true_2 by lia.
  apply lookup_lt_is_Some. lia.
Qed.

Lemma revealable_first_item g i :
  revealable g i →
  ∃ it, first_item (canvas g) (ById i) = Some it ∧
        tcl_string (item_tags it) = "box current".
Proof.
  intros (_ & Htag & _). unfold itemcget_tag in Htag.
  destruct (first_item _ _) as [it|]; [eauto | done].
Qed.

(** A click for which the hit test names no item stops at
    [square_clicked[0]]. *)
Lemma play_no_item find_closest g x y :
  getitem (find_closest (canvas g) x y) 0 = None →
  play find_closest x y g = (inl IndexError, g).
Proof. intros Hi. unfold play. rewrite bind_gets. cbn beta zeta. by rewrite Hi. Qed.

(** A click on an item that is not to be revealed only tests for the end
    of the game. *)
Lemma play_not_revealable find_closest g x y i :
  getitem (find_closest (canvas g) x y) 0 = Some i →
  ¬ revealable g i →
  play find_closest x y g = play_epilogue g.
Proof.
  intros Hi Hr. unfold play. rewrite bind_gets. cbn beta zeta. rewrite Hi.
  cbn [try]. rewrite bind_ret, bind_gets. cbn beta.
  unfold revealable in Hr.
  case_bool_decide as Hlen; cbn [when]; [|by rewrite bind_ret].
  rewrite bind_assoc.
  case_bool_decide as Htag; cbn [when].
  - rewrite bool_decide_eq_false_2 by tauto. cbn [when].
    rewrite bind_ret. unfold bind at 1.
    rewrite match_check_skip by lia. done.
  - rewrite bind_ret. unfold bind at 1.
    rewrite match_check_skip by lia. done.
Qed.

(** The three ways a click can go, on an object whose canvas has the
    expected shape: the hit test names no item; the item is not to be
    revealed; or it is revealed, the pair is evaluated, and the end of
    the game is tested. *)
Lemma play_cases find_closest g x y :
  canvas_ok (canvas g) → (16 ≤ length (folder_images g))%nat →
  (getitem (find_closest (canvas g) x y) 0 = None ∧
   play find_closest x y g = (inl IndexError, g)) ∨
  (∃ i, getitem (find_closest (canvas g) x y) 0 = Some i ∧
     ¬ revealable g i ∧
     play find_closest x y g = play_epilogue g) ∨
  (∃ i image cx cy, getitem (find_closest (canvas g) x y) 0 = Some i ∧
     revealable g i ∧ (1 ≤ i ≤ 16)%nat ∧
     getitem (folder_images g) (Z.of_nat i - 1) = Some image ∧
     play find_closest x y g
     = play_epilogue (match_check (reveal i image cx cy g)).2).
Proof.
  intros Hc Hf.
  destruct (getitem (find_closest (canvas g) x y) 0) as [i|] eqn:Hi;
    [right | left; by rewrite play_no_item].
  destruct (decide (revealable g i)) as [Hr|Hr];
    [|left; exists i; by rewrite (play_not_revealable _ _ _ _ i)].
  unfold play. rewrite bind_gets. cbn beta zeta. rewrite Hi.
  cbn [try]. rewrite bind_ret, bind_gets. cbn beta.
  right. destruct (revealable_first_item _ _ Hr) as (it & Hit & Htags).
  destruct (available_is_grid _ _ _ Hc Hit Htags) as (Hg & Hid & Hrange & _).
  destruct (getitem_in_range (folder_images g) i ltac:(lia)) as [image Himage].
  destruct Hr as (Hlen & Htag & Hfill).
  destruct Hg as (_ & Hcoords & _).
  destruct (item_coords it) as [|x1 [|y1 [|x2 [|y2 [|]]]]] eqn:Hco; try done.
  exists i, image, (x1 + (x2 - x1) / 2), (y1 + (y2 - y1) / 2).
  split; [done|]. split; [done|]. split; [done|]. split; [done|].
  rewrite (bool_decide_eq_true_2 _ Hlen). cbn [when].
  rewrite (bool_decide_eq_true_2 _ Htag). cbn [when].
  rewrite (bool_decide_eq_true_2 _ Hfill). cbn [when].
  mstep. mstep. cbn [canvas set_canvas]. unfold coords.
  rewrite first_item_itemconfigure, Hit. cbn [fmap option_fmap option_map from_option].
  replace (item_coords (if decide (matches (ById i) it)
                        then configure_item None (Some "selected") it else it))
    with [x1; y1; x2; y2] by (case_decide; done).
  cbn zeta. mstep. cbn [folder_images set_canvas].
  rewrite Himage. cbn [try]. mstep. mstep. mstep.
  cbn [folder_images set_canvas canvas].
  rewrite Himage. cbn [try]. mstep. mstep.
  fold (reveal i image (x1 + (x2 - x1) / 2) (y1 + (y2 - y1) / 2) g).
  unfold bind at 1.
  pose proof (match_check_completes
    (reveal i image (x1 + (x2 - x1) / 2) (y1 + (y2 - y1) / 2) g)) as Hmc.
  destruct (match_check _) as [[e|[]] g2]; [done|]. done.
Qed.

(** ** The invariant of a play *)

Lemma game_ok_epilogue g : game_ok g → game_ok (play_epilogue g).2.
Proof. rewrite play_epilogue_eq. simpl. by destruct (is_game_over g). Qed.

Lemma game_ok_match_check g : game_ok g → game_ok (match_check g).2.
Proof.
  intros (Hbuf & Hdeck & Hc).
  destruct (decide (length (image_to_compare g) = 2%nat)) as [H|H].
  - apply length_two in H as (a & b & H).
    destruct (match_check_pair g a b H)
      as (_ & _ & _ & Hcv & Hb & _ & Hf & _).
    unfold game_ok. rewrite Hb, Hf, Hcv. split; [done|]. split; [done|].
    case_bool_decide; [|done].
    apply canvas_ok_itemconfigure; [done|done|].
    intros it. by apply shown_image_no_tag.
  - by rewrite match_check_skip.
Qed.

Lemma game_ok_reveal g i image x y :
  game_ok g → revealable g i → (1 ≤ i ≤ 16)%nat →
  game_ok (reveal i image x y g).
Proof.
  intros (Hbuf & Hdeck & Hc) (Hlen & _) Hi. unfold game_ok, reveal. simpl.
  split; [rewrite length_app; simpl; lia|]. split; [done|].
  apply canvas_ok_create_image, canvas_ok_itemconfigure; [done|done|].
  intros it [_ Hid]. simpl. lia.
Qed.

Lemma game_ok_play find_closest g x y :
  game_ok g → game_ok (play find_closest x y g).2.
Proof.
  intros Hg. pose proof Hg as (Hbuf & Hdeck & Hc).
  destruct (play_cases find_closest g x y Hc Hdeck)
    as [[_ ->]|[(i & _ & _ & ->)|(i & image & cx & cy & _ & Hr & Hi & _ & ->)]].
  - done.
  - by apply game_ok_epilogue.
  - by apply game_ok_epilogue, game_ok_match_check, game_ok_reveal.
Qed.

Lemma game_ok_disappear g : game_ok g → game_ok (disappear g).2.
Proof.
  intros (Hbuf & Hdeck & Hc). rewrite disappear_eq. unfold game_ok. simpl.
  split; [lia|]. split; [done|].
  apply canvas_ok_itemconfigure; [by apply canvas_ok_delete_images|done|].
  intros it. by apply shown_image_no_tag.
Qed.

Lemma game_ok_restart g : game_ok g → game_ok (restart g).2.
Proof.
  intros (Hbuf & Hdeck & Hc). rewrite restart_eq. unfold game_ok. simpl.
  split; [done|]. split; [by rewrite shuffle_length|].
  apply canvas_ok_itemconfigure; [done|done|].
  intros it. by apply shown_image_no_tag.
Qed.

Lemma game_ok_handle find_closest ev g :
  game_ok g → game_ok (handle find_closest ev g).2.
Proof.
  intros Hg. destruct ev as [x y| |]; simpl.
  - by apply game_ok_play.
  - by apply game_ok_restart.
  - rewrite bind_gets. destruct (after_queue g) as [|[ms []] q] eqn:Hq; [done|].
    rewrite bind_modify. cbn [run_callback]. apply game_ok_disappear.
    destruct Hg as (? & ? & ?). done.
Qed.

Lemma game_ok_main fs random_state argv out g :
  main fs random_state argv = (out, inr g) → game_ok g.
Proof.
  intros Hmain.
  destruct (main_deck _ _ _ _ _ Hmain) as (_ & Hp & H8 & _).
  revert Hmain. unfold main.
  destruct (get_arguments fs argv) as [out' [e|[[fast color] folder]]]; [done|].
  unfold MatchGame_init. destruct (listdir fs folder) as [e|listing]; [done|].
  destruct (load_images listing) as [d il].
  destruct (shuffle (il ++ il) random_state) as [fi rs'].
  intros [= <- <-]. simpl in *. split; [simpl; lia|]. split.
  - simpl. rewrite Hp, length_app. lia.
  - apply canvas_ok_grid.
Qed.

(** Every object of a play has the expected shape. *)
Lemma reachable_game_ok find_closest g : reachable find_closest g → game_ok g.
Proof.
  induction 1 as [fs rs argv out g Hmain|g ev _ IH].
  - by eapply game_ok_main.
  - by apply game_ok_handle.
Qed.

(** ** Slots *)

Lemma slot_state_tags c i s :
  slot_state c i = Some s →
  ∃ it, first_item c (ById i) = Some it ∧ state_of_tags (item_tags it) = Some s.
Proof.
  unfold slot_state. destruct (first_item c (ById i)) as [it|]; [|done].
  simpl. eauto.
Qed.

(** [itemconfigure] by tag moves the slots carrying the tag to the state
    of the new tag list and leaves the others where they are. *)
Lemma slot_state_itemconfigure c t fill tag i s :
  slot_state c i = Some s →
  slot_state (itemconfigure (ByTag t) fill (Some tag) c) i
  = if bool_decide (t ∈ tags_of s)
    then state_of_tags (tcl_list tag) else Some s.
Proof.
  intros (it & Hit & Hs)%slot_state_tags. unfold slot_state.
  rewrite first_item_itemconfigure, Hit. simpl.
  rewrite <- (tags_of_state _ _ Hs).
  case_decide; [by rewrite bool_decide_eq_true_2
               | by rewrite bool_decide_eq_false_2].
Qed.

Lemma head_filter_delete (l : list Item) i it :
  head (filter (matches (ById i)) l) = Some it →
  ¬ matches (ByTag "image") it →
  head (filter (matches (ById i))
          (filter (λ it, ¬ matches (ByTag "image") it) l)) = Some it.
Proof.
  intros Hhead Hkeep. induction l as [|x l IH]; [done|].
  rewrite filter_cons in Hhead. rewrite filter_cons.
  destruct (decide (matches (ById i) x)) as [Hx|Hx].
  - simpl in Hhead. injection Hhead as ->.
    rewrite decide_True by done. rewrite filter_cons, decide_True by done. done.
  - case_decide; [rewrite filter_cons, decide_False by done|]; auto.
Qed.

(** Deleting the images shown leaves the slots as they are. *)
Lemma slot_state_delete_images c i s :
  slot_state c i = Some s →
  slot_state (delete_items (ByTag "image") c) i = Some s.
Proof.
  intros (it & Hit & Hs)%slot_state_tags. unfold slot_state, first_item.
  cbn [delete_items items]. rewrite (head_filter_delete _ _ it); [done|done|].
  simpl. rewrite (tags_of_state _ _ Hs). intros Hn.
  apply (bool_decide_pack _) in Hn. by destruct s; vm_compute in Hn.
Qed.

(** A slot that is Revealed or Matched is not to be revealed, and
    neither is an image shown on a slot. *)
Lemma not_revealable g i :
  slot_state (canvas g) i = Some Revealed ∨
  slot_state (canvas g) i = Some Matched ∨
  item_tags <$> first_item (canvas g) (ById i) = Some (tcl_list "image") →
  ¬ revealable g i.
Proof.
  intros Hs (_ & Htag & _). unfold itemcget_tag in Htag.
  destruct Hs as [Hs|[Hs|Hs]].
  - apply slot_state_tags in Hs as (it & Hit & Hs).
    apply tags_of_state in Hs. rewrite Hit in Htag. simpl in Htag.
    rewrite Hs in Htag. done.
  - apply slot_state_tags in Hs as (it & Hit & Hs).
    apply tags_of_state in Hs. rewrite Hit in Htag. simpl in Htag.
    rewrite Hs in Htag. done.
  - destruct (first_item (canvas g) (ById i)) as [it|]; [|done].
    simpl in Hs, Htag. injection Hs as Hs. rewrite Hs in Htag. done.
Qed.

(** With two images buffered nothing is to be revealed. *)
Lemma not_revealable_full g i :
  length (image_to_compare g) = 2%nat → ¬ revealable g i.
Proof. intros H (Hlen & _). lia. Qed.

(** ** Scoring (C1) *)

(** C1, as amended.  A pair evaluation adds one to the attempt count; it
    leaves the score as it is while the count stays at 13 or below, and
    takes exactly 10 off once the count is above 13, whether the two
    identifiers are equal or not.  (Without two buffered images nothing
    is evaluated, [match_check_skip]; the count is 0 in the object [main]
    builds and after [restart], [restart_effect].) *)
Theorem C1_score_after_thirteen g a b :
  image_to_compare g = [a; b] →
  (match_check g).1 = inr () ∧
  count (match_check g).2 = count g + 1 ∧
  (count g + 1 ≤ 13 → score (match_check g).2 = score g) ∧
  (13 < count g + 1 → score (match_check g).2 = score g - 10).
Proof.
  intros H. destruct (match_check_pair g a b H) as (H1 & Hc & Hs & _).
  split; [done|]. split; [done|]. rewrite Hs.
  case_bool_decide; split; intros; try done; lia.
Qed.

Lemma C1_witness :
  let g := reveal 9 {| image_name := 2; image_file := "b.gif" |} 315 65
             (run sample_find_closest (thirteen_pairs ++ [click_on 1])
                (sample_game [])) in
  (match_check g).1 = inr () ∧
  count (match_check g).2 = count g + 1 ∧
  (count g + 1 ≤ 13 → score (match_check g).2 = score g) ∧
  (13 < count g + 1 → score (match_check g).2 = score g - 10).
Proof.
  apply (C1_score_after_thirteen _
           {| image_name := 2; image_file := "b.gif" |}
           {| image_name := 2; image_file := "b.gif" |}).
  vm_compute. reflexivity.
Defined.

(** After thirteen evaluations, the click on slot 9 completes the pair of
    slots 1 and 9, whose identifiers are equal, and the score drops from
    100 to 90. *)
Lemma C1_counterexample :
  let g := run sample_find_closest (thirteen_pairs ++ [click_on 1])
             (sample_game []) in
  let g' := (handle sample_find_closest (click_on 9) g).2 in
  count g = 13 ∧ score g = 100 ∧
  (∃ a, image_to_compare g' = [a; a]) ∧
  count g' = 14 ∧ score g' = 90 ∧
  ¬ (score g' = score g).
Proof.
  vm_compute. repeat split; try reflexivity; [by eexists | discriminate].
Qed.

(** ** Matches (C2) *)

(** C2, as amended.  When the two buffered identifiers are equal, every
    Revealed slot becomes Matched at once, but the buffer keeps its two
    entries: [disappear] is registered with the same delay as for a
    mismatch, a click before it runs changes neither buffer nor canvas,
    and the buffer is empty once it has run. *)
Theorem C2_match_waits_for_timer g a :
  image_to_compare g = [a; a] →
  let g' := (match_check g).2 in
  (∀ i, slot_state (canvas g) i = Some Revealed →
        slot_state (canvas g') i = Some Matched) ∧
  image_to_compare g' = [a; a] ∧
  after_queue g' = after_queue g ++ [(timer g, Disappear)] ∧
  (∀ find_closest x y,
     image_to_compare (play find_closest x y g').2 = [a; a] ∧
     canvas (play find_closest x y g').2 = canvas g') ∧
  image_to_compare (disappear g').2 = [].
Proof.
  intros H. destruct (match_check_pair g a a H)
    as (_ & _ & _ & Hcv & Hb & Hq & _).
  rewrite bool_decide_eq_true_2 in Hcv by done. cbn zeta.
  split; [|split; [done|split; [done|split; [|done]]]].
  - intros i Hi. rewrite Hcv, (slot_state_itemconfigure _ _ _ _ _ _ Hi). done.
  - intros fc x y.
    destruct (getitem (fc (canvas (match_check g).2) x y) 0) as [i|] eqn:Hi.
    + rewrite (play_not_revealable _ _ _ _ i Hi)
        by (apply not_revealable_full; by rewrite Hb).
      rewrite play_epilogue_eq. simpl. by destruct (is_game_over _).
    + by rewrite play_no_item.
Qed.

Lemma C2_witness :
  let g := reveal 9 {| image_name := 2; image_file := "b.gif" |} 315 65
             (run sample_find_closest [click_on 1] (sample_game [])) in
  let a := {| image_name := 2; image_file := "b.gif" |} in
  let g' := (match_check g).2 in
  (∀ i, slot_state (canvas g) i = Some Revealed →
        slot_state (canvas g') i = Some Matched) ∧
  image_to_compare g' = [a; a] ∧
  after_queue g' = after_queue g ++ [(timer g, Disappear)] ∧
  (∀ find_closest x y,
     image_to_compare (play find_closest x y g').2 = [a; a] ∧
     canvas (play find_closest x y g').2 = canvas g') ∧
  image_to_compare (disappear g').2 = [].
Proof.
  apply (C2_match_waits_for_timer _ {| image_name := 2; image_file := "b.gif" |}).
  vm_compute. reflexivity.
Defined.

(** The pair of slots 1 and 9 matches; both are Matched, yet the buffer
    still holds two images, and the click on the Concealed slot 2 that
    follows reveals nothing. *)
Lemma C2_counterexample :
  let g := run sample_find_closest [click_on 1; click_on 9] (sample_game []) in
  let g' := (handle sample_find_closest (click_on 2) g).2 in
  slot_state (canvas g) 1 = Some Matched ∧
  slot_state (canvas g) 9 = Some Matched ∧
  (∃ a, image_to_compare g = [a; a]) ∧
  ¬ (image_to_compare g = []) ∧
  after_queue g = [(1000, Disappear)] ∧
  slot_state (canvas g) 2 = Some Concealed ∧
  sample_find_closest (canvas g) 65 190 = [2%nat] ∧
  slot_state (canvas g') 2 = Some Concealed ∧
  image_to_compare g' = image_to_compare g.
Proof.
  vm_compute. repeat split; try reflexivity; [by eexists | discriminate].
Qed.

(** ** Restart (C3, C9) *)

(** What [restart] does reset: score and attempt count, the order of the
    deck, and the Matched slots, which become Concealed.  It leaves the
    buffer, the Revealed slots, the images shown and the registered
    callbacks as they are. *)
Lemma restart_effect g :
  let g' := (restart g).2 in
  score g' = 100 ∧ count g' = 0 ∧
  folder_images g' ≡ₚ folder_images g ∧
  image_to_compare g' = image_to_compare g ∧
  after_queue g' = after_queue g ∧
  (∀ i s, slot_state (canvas g) i = Some s →
     slot_state (canvas g') i
     = Some (match s with Matched => Concealed | _ => s end)).
Proof.
  rewrite restart_eq. simpl. repeat split; try done.
  - apply shuffle_perm.
  - intros i s Hs. rewrite (slot_state_itemconfigure _ _ _ _ _ _ Hs).
    by destruct s.
Qed.

(** C3.  Slot 1 is revealed and RESTART is pressed: score and count are
    reset and the deck is reshuffled, but slot 1 is still Revealed, its
    old image is still shown and still buffered, while the new deck has
    another image at that slot.  A click on slot 8, which holds the old
    image of slot 1 in the new deck, then pairs the two slots as a
    match. *)
Theorem C3_restart_keeps_revealed_slot :
  let g := run sample_find_closest [click_on 1] (sample_game []) in
  let g' := (handle sample_find_closest RestartButton g).2 in
  let g'' := (handle sample_find_closest (click_on 8) g').2 in
  score g' = 100 ∧ count g' = 0 ∧
  slot_state (canvas g') 1 = Some Revealed ∧
  image_file <$> image_to_compare g' = ["b.gif"] ∧
  item_image <$> drop 16 (items (canvas g'))
  = [Some {| image_name := 2; image_file := "b.gif" |}] ∧
  image_file <$> getitem (folder_images g') 0 = Some "c.gif" ∧
  image_file <$> getitem (folder_images g') 7 = Some "b.gif" ∧
  slot_state (canvas g'') 1 = Some Matched ∧
  slot_state (canvas g'') 8 = Some Matched.
Proof. vm_compute. repeat split; reflexivity. Qed.

(** C9, as amended.  [restart] cancels nothing: a callback registered
    before it is still registered after it, and when it runs it acts on
    the object as [restart] left it, emptying the buffer, deleting the
    images shown and returning the Revealed slots to Concealed. *)
Theorem C9_timer_survives_restart find_closest g ms q :
  after_queue g = (ms, Disappear) :: q →
  let g1 := (restart g).2 in
  let g2 := (handle find_closest TimerFires g1).2 in
  after_queue g1 = (ms, Disappear) :: q ∧
  image_to_compare g1 = image_to_compare g ∧
  after_queue g2 = q ∧
  image_to_compare g2 = [] ∧
  canvas g2 = itemconfigure (ByTag "selected") None (Some "box current")
                (delete_items (ByTag "image") (canvas g1)) ∧
  (∀ i, slot_state (canvas g) i = Some Revealed →
     slot_state (canvas g1) i = Some Revealed ∧
     slot_state (canvas g2) i = Some Concealed).
Proof.
  intros Hq. destruct (restart_effect g) as (_ & _ & _ & Hb & Hq1 & Hs).
  cbn zeta. rewrite Hq in Hq1.
  assert (∀ i, slot_state (canvas g) i = Some Revealed →
            slot_state (canvas (restart g).2) i = Some Revealed) as Hkeep
    by (intros i Hi; by rewrite (Hs i _ Hi)).
  split; [done|]. split; [done|].
  cbn [handle]. rewrite bind_gets, Hq1, bind_modify. cbn [run_callback].
  rewrite disappear_eq. cbn [snd after_queue image_to_compare canvas
    set_canvas set_image_to_compare set_after_queue].
  repeat split; [by apply Hkeep|].
  rewrite (slot_state_itemconfigure _ _ _ _ _ Revealed); [done|].
  by apply slot_state_delete_images, Hkeep.
Qed.

Lemma C9_witness :
  let g := run sample_find_closest [click_on 1; click_on 2] (sample_game []) in
  let g1 := (restart g).2 in
  let g2 := (handle sample_find_closest TimerFires g1).2 in
  after_queue g1 = (1000, Disappear) :: [] ∧
  image_to_compare g1 = image_to_compare g ∧
  after_queue g2 = [] ∧
  image_to_compare g2 = [] ∧
  canvas g2 = itemconfigure (ByTag "selected") None (Some "box current")
                (delete_items (ByTag "image") (canvas g1)) ∧
  (∀ i, slot_state (canvas g) i = Some Revealed →
     slot_state (canvas g1) i = Some Revealed ∧
     slot_state (canvas g2) i = Some Concealed).
Proof.
  apply (C9_timer_survives_restart sample_find_closest _ 1000 []).
  vm_compute. reflexivity.
Defined.

(** Slots 1 and 2 mismatch and RESTART is pressed before the timer
    expires; when it does, it changes the slot states and the buffer of
    the board the restart produced. *)
Lemma C9_counterexample :
  let g := run sample_find_closest [click_on 1; click_on 2; RestartButton]
             (sample_game []) in
  let g' := (handle sample_find_closest TimerFires g).2 in
  after_queue g = [(1000, Disappear)] ∧
  slot_state (canvas g) 1 = Some Revealed ∧
  slot_state (canvas g') 1 = Some Concealed ∧
  length (image_to_compare g) = 2%nat ∧
  image_to_compare g' = [] ∧
  ¬ (canvas g' = canvas g) ∧
  ¬ (image_to_compare g' = image_to_compare g).
Proof. vm_compute. repeat split; try reflexivity; discriminate. Qed.

(** ** Rejected clicks (C6, C7) *)

(** C6.  A click the hit test resolves to a slot that is Revealed or
    Matched, or to the image shown on one, completes without revealing
    anything: canvas, buffer, score, attempt count, deck and registered
    callbacks are as before, and unless the game is over the whole
    object is. *)
Theorem C6_reveal_rejected find_closest g x y i :
  getitem (find_closest (canvas g) x y) 0 = Some i →
  slot_state (canvas g) i = Some Revealed ∨
  slot_state (canvas g) i = Some Matched ∨
  item_tags <$> first_item (canvas g) (ById i) = Some (tcl_list "image") →
  let r := play find_closest x y g in
  r.1 = inr () ∧
  canvas r.2 = canvas g ∧
  image_to_compare r.2 = image_to_compare g ∧
  score r.2 = score g ∧ count r.2 = count g ∧
  folder_images r.2 = folder_images g ∧
  after_queue r.2 = after_queue g ∧
  (is_game_over g = false → r.2 = g).
Proof.
  intros Hi Hs. cbn zeta.
  rewrite (play_not_revealable _ _ _ _ i Hi) by (by apply not_revealable).
  rewrite play_epilogue_eq. simpl.
  destruct (is_game_over g); repeat split; done.
Qed.

Lemma C6_witness :
  let g := run sample_find_closest [click_on 1; click_on 9; TimerFires]
             (sample_game []) in
  let r := play sample_find_closest 65 65 g in
  r.1 = inr () ∧
  canvas r.2 = canvas g ∧
  image_to_compare r.2 = image_to_compare g ∧
  score r.2 = score g ∧ count r.2 = count g ∧
  folder_images r.2 = folder_images g ∧
  after_queue r.2 = after_queue g ∧
  (is_game_over g = false → r.2 = g).
Proof.
  apply (C6_reveal_rejected sample_find_closest _ 65 65 1).
  - vm_compute. reflexivity.
  - right. left. vm_compute. reflexivity.
Defined.

(** The same for a slot that is Revealed: the click at its centre is
    resolved to the image shown on it, item 17. *)
Lemma revealed_slot_click_rejected :
  let g := run sample_find_closest [click_on 1] (sample_game []) in
  slot_state (canvas g) 1 = Some Revealed ∧
  sample_find_closest (canvas g) 65 65 = [17%nat] ∧
  play sample_find_closest 65 65 g = (inr (), g).
Proof.
  cbn zeta. split; [by vm_compute|]. split; [by vm_compute|].
  rewrite (play_not_revealable _ _ _ _ 17).
  - rewrite play_epilogue_eq. by vm_compute.
  - by vm_compute.
  - apply not_revealable. right. right. by vm_compute.
Qed.

(** C7.  In every object of a play the buffer holds at most two images,
    and while it holds two a click changes neither the buffer nor the
    canvas, nor score or attempt count. *)
Theorem C7_selection_buffer find_closest g :
  reachable find_closest g →
  (length (image_to_compare g) ≤ 2)%nat ∧
  (length (image_to_compare g) = 2%nat →
   ∀ x y, let g' := (play find_closest x y g).2 in
     image_to_compare g' = image_to_compare g ∧
     canvas g' = canvas g ∧
     score g' = score g ∧ count g' = count g).
Proof.
  intros Hr. destruct (reachable_game_ok _ _ Hr) as (Hlen & _).
  split; [done|]. intros H2 x y. cbn zeta.
  destruct (getitem (find_closest (canvas g) x y) 0) as [i|] eqn:Hi.
  - rewrite (play_not_revealable _ _ _ _ i Hi)
      by (by apply not_revealable_full).
    rewrite play_epilogue_eq. simpl. by destruct (is_game_over g).
  - by rewrite play_no_item.
Qed.

Lemma sample_reachable evs :
  reachable sample_find_closest (run sample_find_closest evs (sample_game [])).
Proof.
  induction evs as [|ev evs IH] using rev_ind.
  - by apply (reachable_main _ sample_fs [] (sample_argv "tiles") []).
  - unfold run. rewrite fold_left_app. simpl. by apply reachable_event.
Qed.

Lemma C7_witness :
  let g := run sample_find_closest [click_on 1; click_on 2] (sample_game []) in
  (length (image_to_compare g) ≤ 2)%nat ∧
  (length (image_to_compare g) = 2%nat →
   ∀ x y, let g' := (play sample_find_closest x y g).2 in
     image_to_compare g' = image_to_compare g ∧
     canvas g' = canvas g ∧
     score g' = score g ∧ count g' = count g).
Proof.
  apply (C7_selection_buffer sample_find_closest). apply sample_reachable.
Defined.

(** ** The end of the game and totality of the handler (C8, C10) *)

Lemma filter_length_all {A} (P : A → Prop) `{!∀ x, Decision (P x)} (l : list A) :
  length (filter P l) = length l ↔ Forall P l.
Proof.
  split.
  - induction l as [|x l IH]; [done|]. rewrite filter_cons.
    case_decide; simpl; intros Hlen.
    + constructor; [done|]. apply IH. lia.
    + pose proof (length_filter P l). lia.
  - intros Hall. by rewrite filter_all.
Qed.

(** In the grid, the rectangle with id [i] is the item at index [i - 1]. *)
Lemma first_item_grid (grid rest : list Item) j n i :
  item_id <$> grid = seq j n → (j ≤ i < j + n)%nat →
  head (filter (matches (ById i)) (grid ++ rest)) = grid !! (i - j)%nat.
Proof.
  revert j n. induction grid as [|it grid IH]; intros j n Hids Hi.
  - destruct n; [lia | done].
  - destruct n as [|n]; [done|]. simpl in Hids. injection Hids as Hid Hids.
    simpl. rewrite filter_cons. simpl. destruct (decide (item_id it = i)) as [He|Hne].
    + replace (i - j)%nat with 0%nat by lia. done.
    + rewrite (IH (S j) n) by (done || lia).
      replace (i - j)%nat with (S (i - S j)) by lia. done.
Qed.

(** The test [play] makes counts exactly the Matched slots. *)
Lemma game_over_all_matched c :
  canvas_ok c →
  length (find_withtag c (ByTag "done")) = 16%nat ↔
  ∀ i, (1 ≤ i ≤ 16)%nat → slot_state c i = Some Matched.
Proof.
  intros [(grid & images & Hitems & Hids & Hgrid & Himages) _].
  assert (length grid = 16%nat) as Hlen
    by (rewrite <- (length_fmap item_id), Hids; done).
  unfold find_withtag. rewrite length_fmap, Hitems, filter_app.
  rewrite (filter_none _ images), app_nil_r
    by (eapply Forall_impl; [done|]; intros it Hit; by apply shown_image_no_tag).
  rewrite <- Hlen at 1. rewrite filter_length_all, Forall_lookup.
  assert (∀ it, grid_item it →
            matches (ByTag "done") it ↔ state_of_tags (item_tags it) = Some Matched)
    as Hdone.
  { intros it Hit. simpl.
    destruct (grid_item_tags _ Hit) as [H | [H | H]]; rewrite H; split; intros Hn;
      first [ reflexivity
            | by apply list_elem_of_singleton
            | by vm_compute in Hn
            | by (apply (bool_decide_pack _) in Hn; vm_compute in Hn) ]. }
  split.
  - intros Hall i Hi. unfold slot_state, first_item. rewrite Hitems.
    rewrite (first_item_grid _ _ 1 16) by (done || lia).
    destruct (lookup_lt_is_Some_2 grid (i - 1)%nat ltac:(lia)) as [it Hit].
    rewrite Hit. simpl. apply Hdone; [|by eapply Hall].
    eapply Forall_lookup_1; done.
  - intros Hall k it Hk.
    pose proof (lookup_lt_Some _ _ _ Hk) as Hlt.
    specialize (Hall (S k) ltac:(lia)). unfold slot_state, first_item in Hall.
    rewrite Hitems, (first_item_grid _ _ 1 16) in Hall by (done || lia).
    replace (S k - 1)%nat with k in Hall by lia. rewrite Hk in Hall. simpl in Hall.
    apply Hdone; [|done]. eapply Forall_lookup_1; done.
Qed.

(** The sample hit test answers with an item of the canvas. *)
Lemma closer_fold x y (l : list Item) b :
  ∃ it, fold_left (closer x y) l (Some b) = Some it ∧ (it = b ∨ it ∈ l).
Proof.
  revert b. induction l as [|a l IH]; intros b; simpl; [eauto|].
  case_bool_decide.
  - destruct (IH a) as (it & -> & [->|Hin]); eexists; split; try done;
      right; [left | by right].
  - destruct (IH b) as (it & -> & [->|Hin]); eexists; split; try done;
      [by left | right; by right].
Qed.

Lemma sample_hit_test_ok : hit_test_ok sample_find_closest.
Proof.
  intros c x y Hne. unfold sample_find_closest.
  destruct (items c) as [|a l]; [done|]. simpl.
  destruct (closer_fold x y l a) as (it & -> & Hin).
  exists (item_id it). split; [done|].
  apply (list_elem_of_fmap_2 item_id (a :: l) it).
  destruct Hin as [->|Hin]; [left | by right].
Qed.

Section HitTest.

Variable find_closest : Canvas → Z → Z → list nat.
Hypothesis find_closest_ok : hit_test_ok find_closest.

(** On a canvas of the expected shape the hit test names an item. *)
Lemma hit_some c x y :
  canvas_ok c → ∃ i, getitem (find_closest c x y) 0 = Some i.
Proof.
  intros [(grid & images & Hitems & Hids & _) _].
  destruct (find_closest_ok c x y) as (i & -> & _); [|by exists i].
  rewrite Hitems. destruct grid; [done|done].
Qed.

(** A click is handled to the end, and it ends with the test for the end
    of the game. *)
Lemma play_completes g x y :
  game_ok g →
  ∃ g1, stdout g1 = stdout g ∧
        play find_closest x y g = play_epilogue g1.
Proof.
  intros Hg. pose proof Hg as (_ & Hdeck & Hc).
  destruct (hit_some (canvas g) x y Hc) as [i Hi].
  destruct (play_cases find_closest g x y Hc Hdeck)
    as [[Hn _]|[(j & _ & _ & ->)|(j & image & cx & cy & _ & _ & _ & _ & ->)]].
  - congruence.
  - by exists g.
  - eexists. split; [|done].
    destruct (decide (length (image_to_compare (reveal j image cx cy g)) = 2%nat))
      as [H|H].
    + apply length_two in H as (a & b & H).
      by destruct (match_check_pair _ a b H) as (_&_&_&_&_&_&_&_&->&_).
    + by rewrite match_check_skip.
Qed.

(** C8.  In every object of a play the test for the end of the game
    holds exactly when all sixteen slots are Matched; every click is
    handled to the end, and it reports the end of the game (prints
    [done] and shows the Game Over label) exactly when all sixteen slots
    are Matched in the object it leaves; RESTART and the timer report
    nothing. *)
Theorem C8_game_over_iff_all_matched g :
  reachable find_closest g →
  (is_game_over g = true ↔
   ∀ i, (1 ≤ i ≤ 16)%nat → slot_state (canvas g) i = Some Matched) ∧
  (∀ x y, let r := play find_closest x y g in
     r.1 = inr () ∧
     if is_game_over r.2
     then stdout r.2 = stdout g ++ ["done"] ∧ scoreboard r.2 = game_over_label r.2
     else stdout r.2 = stdout g) ∧
  stdout (restart g).2 = stdout g ∧
  stdout (handle find_closest TimerFires g).2 = stdout g.
Proof.
  intros Hr. pose proof (reachable_game_ok _ _ Hr) as Hg.
  split; [|split; [|split]].
  - unfold is_game_over. rewrite bool_decide_eq_true.
    apply game_over_all_matched. by destruct Hg as (_ & _ & ?).
  - intros x y. cbn zeta.
    destruct (play_completes g x y Hg) as (g1 & Hout & ->).
    rewrite play_epilogue_eq. cbn [fst snd]. split; [done|].
    assert (∀ g', canvas g' = canvas g1 → is_game_over g' = is_game_over g1)
      as Hsame by (intros g' Hcv; unfold is_game_over; by rewrite Hcv).
    destruct (is_game_over g1) eqn:Hover.
    + rewrite Hsame by done. simpl. by rewrite Hout.
    + by rewrite Hover.
  - by rewrite restart_eq.
  - cbn [handle]. rewrite bind_gets. destruct (after_queue g) as [|[ms []] q]; [done|].
    rewrite bind_modify. cbn [run_callback]. by rewrite disappear_eq.
Qed.

(** C10.  In every object of a play the items carrying the two tags
    [box current] have ids from 1 to 16 and index the deck within its
    range, and every click is handled without an exception. *)
Theorem C10_click_handler_total g :
  reachable find_closest g →
  (∀ it, it ∈ items (canvas g) →
     tcl_string (item_tags it) = "box current" →
     (1 ≤ item_id it ≤ 16)%nat ∧
     is_Some (getitem (folder_images g) (Z.of_nat (item_id it) - 1))) ∧
  (∀ x y, (play find_closest x y g).1 = inr ()).
Proof.
  intros Hr. pose proof (reachable_game_ok _ _ Hr) as Hg. split.
  - destruct Hg as (_ & Hdeck & [(grid & images & Hitems & Hids & Hgrid & Himages) _]).
    intros it Hin Htag. rewrite Hitems in Hin. apply elem_of_app in Hin as [Hin|Hin].
    + apply (list_elem_of_fmap_2 item_id) in Hin. rewrite Hids in Hin.
      apply elem_of_seq in Hin. split; [lia|]. apply getitem_in_range. lia.
    + assert (shown_image it) as [Hit _] by (eapply Forall_forall; done).
      rewrite Hit in Htag. done.
  - intros x y. destruct (play_completes g x y Hg) as (g1 & _ & ->).
    by rewrite play_epilogue_eq.
Qed.

End HitTest.

Lemma C8_witness :
  let g := run sample_find_closest [click_on 1; click_on 9] (sample_game []) in
  (is_game_over g = true ↔
   ∀ i, (1 ≤ i ≤ 16)%nat → slot_state (canvas g) i = Some Matched) ∧
  (∀ x y, let r := play sample_find_closest x y g in
     r.1 = inr () ∧
     if is_game_over r.2
     then stdout r.2 = stdout g ++ ["done"] ∧ scoreboard r.2 = game_over_label r.2
     else stdout r.2 = stdout g) ∧
  stdout (restart g).2 = stdout g ∧
  stdout (handle sample_find_closest TimerFires g).2 = stdout g.
Proof.
  apply (C8_game_over_iff_all_matched sample_find_closest sample_hit_test_ok).
  apply sample_reachable.
Defined.

Lemma C10_witness :
  let g := run sample_find_closest [click_on 1; click_on 9] (sample_game []) in
  (∀ it, it ∈ items (canvas g) →
     tcl_string (item_tags it) = "box current" →
     (1 ≤ item_id it ≤ 16)%nat ∧
     is_Some (getitem (folder_images g) (Z.of_nat (item_id it) - 1))) ∧
  (∀ x y, (play sample_find_closest x y g).1 = inr ()).
Proof.
  apply (C10_click_handler_total sample_find_closest sample_hit_test_ok).
  apply sample_reachable.
Defined.

(** * Further properties *)

(** ** The steps of a play *)

Lemma match_check_evaluated g a b :
  image_to_compare g = [a; b] → match_check g = (inr (), evaluated a b g).
Proof.
  intros H. run_m. rewrite H. simpl. unfold evaluated.
  destruct (bool_decide (a = b)); simpl; case_bool_decide; done.
Qed.

(** What an event makes of an object of the expected shape: nothing; the
    report of the end of the game; a reveal, with the evaluation of the
    pair if it is the second, and the report; the oldest callback; a
    restart. *)
Lemma handle_cases find_closest ev g :
  game_ok g →
  let g' := (handle find_closest ev g).2 in
  g' = g ∨
  g' = (play_epilogue g).2 ∨
  (∃ i image x y,
     revealable g i ∧ (1 ≤ i ≤ 16)%nat ∧
     getitem (folder_images g) (Z.of_nat i - 1) = Some image ∧
     g' = (play_epilogue (match_check (reveal i image x y g)).2).2) ∨
  (∃ ms q, after_queue g = (ms, Disappear) :: q ∧
     g' = (disappear (set_after_queue q g)).2) ∨
  g' = (restart g).2.
Proof.
  intros (_ & Hdeck & Hc). destruct ev as [x y| |]; cbn zeta.
  - cbn [handle].
    destruct (play_cases find_closest g x y Hc Hdeck)
      as [[_ ->]|[(i & _ & _ & ->)|(i & image & cx & cy & _ & Hr & Hi & Him & ->)]].
    + by left.
    + right. by left.
    + right. right. left. by exists i, image, cx, cy.
  - by repeat right.
  - cbn [handle]. rewrite bind_gets.
    destruct (after_queue g) as [|[ms []] q] eqn:Hq; [by left|].
    rewrite bind_modify. cbn [run_callback].
    right. right. right. left. by exists ms, q.
Qed.

(** Induction over a play, by these steps. *)
Lemma play_induction find_closest (P : MatchGame → Prop) :
  (∀ fs random_state argv out g,
     main fs random_state argv = (out, inr g) → P g) →
  (∀ g, game_ok g → P g → P (play_epilogue g).2) →
  (∀ g i image x y,
     game_ok g → P g → revealable g i → (1 ≤ i ≤ 16)%nat →
     getitem (folder_images g) (Z.of_nat i - 1) = Some image →
     P (match_check (reveal i image x y g)).2) →
  (∀ g ms q,
     game_ok g → P g → after_queue g = (ms, Disappear) :: q →
     P (disappear (set_after_queue q g)).2) →
  (∀ g, game_ok g → P g → P (restart g).2) →
  ∀ g, reachable find_closest g → P g.
Proof.
  intros Hmain Hep Hrev Htimer Hrestart g Hr.
  induction Hr as [fs rs argv out g Hm|g ev Hr IH]; [by eapply Hmain|].
  pose proof (reachable_game_ok _ _ Hr) as Hg.
  destruct (handle_cases find_closest ev g Hg)
    as [->|[->|[(i & image & x & y & Hrv & Hi & Him & ->)|[(ms & q & Hq & ->)| ->]]]].
  - done.
  - by apply Hep.
  - apply Hep.
    + by apply game_ok_match_check, game_ok_reveal.
    + by apply Hrev.
  - by eapply Htimer.
  - by apply Hrestart.
Qed.

(** The object [main] builds. *)
Lemma main_object fs random_state argv out g :
  main fs random_state argv = (out, inr g) →
  ∃ fast folder listing,
    get_arguments fs argv = (out, inr (fast, arg_color argv, folder)) ∧
    fast = arg_fast argv ∧
    arg_color argv ∈ color_choices ∧
    listdir fs folder = inr listing ∧
    g = {| score := 100;
           color := arg_color argv;
           timer := (if fast then 1 else 3) * 1000;
           count := 0;
           image_list := (load_images listing).2;
           image_dict := (load_images listing).1;
           image_to_compare := [];
           folder_images :=
             (shuffle ((load_images listing).2 ++ (load_images listing).2)
                random_state).1;
           canvas := create_grid (arg_color argv) empty_canvas;
           scoreboard := {| text := "Score: " +:+ str 100; fg := "blue";
                            font := ("Helvetica", 32); height := 2 |};
           random_state :=
             (shuffle ((load_images listing).2 ++ (load_images listing).2)
                random_state).2;
           after_queue := [];
           stdout := [] |}.
Proof.
  unfold main.
  destruct (get_arguments fs argv) as [out' [e|[[fast color] folder]]] eqn:Hga;
    [done|].
  unfold MatchGame_init. destruct (listdir fs folder) as [e|listing] eqn:Hl; [done|].
  destruct (load_images listing) as [d il] eqn:Hli.
  destruct (shuffle (il ++ il) random_state) as [fi rs'] eqn:Hsh.
  intros [= <- <-].
  assert (fast = arg_fast argv ∧ color = arg_color argv ∧
          arg_color argv ∈ color_choices) as (-> & -> & Hcol).
  { revert Hga. unfold get_arguments. case_bool_decide; [|done].
    destruct (directory_type fs (arg_image_folder argv)) as [o [[]|p]];
      intros [= ]; by subst. }
  exists (arg_fast argv), folder, listing. repeat split; try done.
  rewrite Hli. cbn [fst snd]. by rewrite Hsh.
Qed.

Lemma match_check_cases g :
  (∃ a b, image_to_compare g = [a; b] ∧ (match_check g).2 = evaluated a b g) ∨
  (length (image_to_compare g) ≠ 2%nat ∧ (match_check g).2 = g).
Proof.
  destruct (decide (length (image_to_compare g) = 2%nat)) as [H|H].
  - left. apply length_two in H as (a & b & H). exists a, b.
    by rewrite (match_check_evaluated _ _ _ H).
  - right. by rewrite match_check_skip.
Qed.

(** ** The score as a function of the attempts *)

(** X1.  Throughout a play the score is determined by the attempt count:
    100 up to the thirteenth attempt and 10 less for every attempt after
    it; the count is never negative and the score never above 100. *)
Theorem X1_score_formula find_closest g :
  reachable find_closest g →
  score g = 100 - 10 * Z.max 0 (count g - 13) ∧ 0 ≤ count g ∧ score g ≤ 100.
Proof.
  intros Hr.
  assert (score g = 100 - 10 * Z.max 0 (count g - 13) ∧ 0 ≤ count g) as [Hs Hc];
    [|split; [done|split; [done|lia]]].
  revert g Hr. apply play_induction.
  - intros fs rs argv out g (fast & folder & listing & _ & _ & _ & _ & ->)%main_object.
    simpl. lia.
  - intros g _ HP. rewrite play_epilogue_eq. simpl. by destruct (is_game_over g).
  - intros g i image x y _ HP _ _ _.
    destruct (match_check_cases (reveal i image x y g)) as [(a & b & _ & ->)|[_ ->]];
      [|done].
    unfold evaluated. simpl.
    destruct (bool_decide (a = b)); case_bool_decide; simpl; lia.
  - intros g ms q _ HP _. by rewrite disappear_eq.
  - intros g _ _. rewrite restart_eq. simpl. lia.
Qed.

Lemma X1_witness :
  let g := run sample_find_closest (thirteen_pairs ++ [click_on 1; click_on 9])
             (sample_game []) in
  score g = 100 - 10 * Z.max 0 (count g - 13) ∧ 0 ≤ count g ∧ score g ≤ 100.
Proof. apply (X1_score_formula sample_find_closest). apply sample_reachable. Defined.

(** ** The pending callback *)

(** Throughout a play a callback is registered exactly while the buffer
    holds two images. *)
Lemma reachable_pending find_closest g :
  reachable find_closest g →
  (timer g = 1000 ∨ timer g = 3000) ∧
  (length (image_to_compare g) = 2%nat →
   after_queue g = [(timer g, Disappear)]) ∧
  (length (image_to_compare g) ≠ 2%nat → after_queue g = []).
Proof.
  revert g. apply play_induction.
  - intros fs rs argv out g (fast & folder & listing & _ & _ & _ & _ & ->)%main_object.
    simpl. split; [destruct fast; auto|]. done.
  - intros g _ HP. rewrite play_epilogue_eq. simpl. by destruct (is_game_over g).
  - intros g i image x y _ (Ht & Hfull & Hnot) (Hlen & _) _ _.
    destruct (match_check_cases (reveal i image x y g))
      as [(a & b & Hb & ->)|[Hn ->]].
    + unfold evaluated. simpl in *.
      rewrite Hnot by lia.
      destruct (bool_decide (a = b)); case_bool_decide; simpl; rewrite Hb; done.
    + simpl in *. split; [done|]. split; [done|]. intros _. apply Hnot. lia.
  - intros g ms q _ (Ht & Hfull & Hnot) Hq. rewrite disappear_eq. simpl.
    split; [done|]. split; [done|]. intros _.
    destruct (decide (length (image_to_compare g) = 2%nat)) as [H2|H2].
    + rewrite (Hfull H2) in Hq. by injection Hq as _ <-.
    + by rewrite (Hnot H2) in Hq.
  - intros g _ HP. by rewrite restart_eq.
Qed.

(** X2.  Throughout a play a callback is registered exactly while the
    buffer holds two images, it is the only one, and its delay is 1000
    or 3000 milliseconds; so a full buffer is always emptied by the next
    expiry of the timer, which leaves no callback behind. *)
Theorem X2_timer_pending_iff_buffer_full find_closest g :
  reachable find_closest g →
  (timer g = 1000 ∨ timer g = 3000) ∧
  (length (image_to_compare g) = 2%nat →
   after_queue g = [(timer g, Disappear)] ∧
   image_to_compare (handle find_closest TimerFires g).2 = [] ∧
   after_queue (handle find_closest TimerFires g).2 = []) ∧
  (length (image_to_compare g) ≠ 2%nat →
   after_queue g = [] ∧ handle find_closest TimerFires g = (inr (), g)).
Proof.
  intros (Ht & Hfull & Hnot)%reachable_pending.
  split; [done|]. split.
  - intros H2. specialize (Hfull H2). split; [done|].
    cbn [handle]. rewrite bind_gets, Hfull, bind_modify. cbn [run_callback].
    by rewrite disappear_eq.
  - intros H2. specialize (Hnot H2). split; [done|].
    cbn [handle]. by rewrite bind_gets, Hnot.
Qed.

Lemma X2_witness :
  let g := run sample_find_closest [click_on 1; click_on 2] (sample_game []) in
  (timer g = 1000 ∨ timer g = 3000) ∧
  (length (image_to_compare g) = 2%nat →
   after_queue g = [(timer g, Disappear)] ∧
   image_to_compare (handle sample_find_closest TimerFires g).2 = [] ∧
   after_queue (handle sample_find_closest TimerFires g).2 = []) ∧
  (length (image_to_compare g) ≠ 2%nat →
   after_queue g = [] ∧ handle sample_find_closest TimerFires g = (inr (), g)).
Proof.
  apply (X2_timer_pending_iff_buffer_full sample_find_closest).
  apply sample_reachable.
Defined.

(** ** The deck throughout a play *)

(** X3.  Throughout a play the loaded images are pairwise different and
    at least eight, and the deck is the list of loaded images taken twice
    in some order: it has twice as many entries as there are images, and
    every entry of the deck is in it exactly twice. *)
Theorem X3_deck_of_pairs find_closest g :
  reachable find_closest g →
  NoDup (image_list g) ∧ (8 ≤ length (image_list g))%nat ∧
  folder_images g ≡ₚ image_list g ++ image_list g ∧
  length (folder_images g) = (2 * length (image_list g))%nat ∧
  (∀ a, a ∈ folder_images g →
     length (filter (λ b, b = a) (folder_images g)) = 2%nat).
Proof.
  intros Hr.
  assert (NoDup (image_list g) ∧ (8 ≤ length (image_list g))%nat ∧
          folder_images g ≡ₚ image_list g ++ image_list g) as (Hnd & H8 & Hp).
  { revert g Hr. apply play_induction.
    - intros fs rs argv out g Hm.
      by destruct (main_deck _ _ _ _ _ Hm) as (? & ? & ? & _).
    - intros g _ HP. rewrite play_epilogue_eq. simpl. by destruct (is_game_over g).
    - intros g i image x y _ HP _ _ _.
      destruct (match_check_cases (reveal i image x y g)) as [(a & b & _ & ->)|[_ ->]];
        [|done].
      unfold evaluated. simpl.
      destruct (bool_decide (a = b)); case_bool_decide; done.
    - intros g ms q _ HP _. by rewrite disappear_eq.
    - intros g _ (Hnd & H8 & Hp). rewrite restart_eq. simpl.
      split; [done|]. split; [done|]. by rewrite shuffle_perm. }
  split; [done|]. split; [done|]. split; [done|]. split.
  - rewrite Hp, length_app. lia.
  - intros a Ha. rewrite Hp in Ha.
    assert (a ∈ image_list g) as Hin by (apply elem_of_app in Ha; tauto).
    rewrite Hp, filter_app, length_app, filter_eq_NoDup by done. done.
Qed.

Lemma X3_witness :
  let g := run sample_find_closest [click_on 1; RestartButton] (sample_game [5%nat; 3%nat]) in
  NoDup (image_list g) ∧ (8 ≤ length (image_list g))%nat ∧
  folder_images g ≡ₚ image_list g ++ image_list g ∧
  length (folder_images g) = (2 * length (image_list g))%nat ∧
  (∀ a, a ∈ folder_images g →
     length (filter (λ b, b = a) (folder_images g)) = 2%nat).
Proof.
  apply (X3_deck_of_pairs sample_find_closest).
  apply (reachable_event _ _ RestartButton), (reachable_event _ _ (click_on 1)).
  by apply (reachable_main _ sample_fs [5%nat; 3%nat] (sample_argv "tiles") []).
Defined.

(** ** The images shown *)

Lemma omap_fmap_same {A B} (f : A → option B) (h : A → A) (l : list A) :
  (∀ x, f (h x) = f x) → omap f (h <$> l) = omap f l.
Proof.
  intros Hf. induction l as [|x l IH]; [done|].
  rewrite fmap_cons. cbn [omap list_omap]. by rewrite Hf, IH.
Qed.

Lemma images_shown_itemconfigure sel fill tag c :
  images_shown (itemconfigure sel fill tag c) = images_shown c.
Proof.
  unfold images_shown, itemconfigure. cbn [items].
  apply omap_fmap_same. intros it. by case_decide.
Qed.

Lemma images_shown_create_image x y image tag c :
  images_shown (create_image x y image tag c) = images_shown c ++ [image].
Proof. unfold images_shown, create_image. cbn [items]. by rewrite omap_app. Qed.

(** Deleting the items tagged [image] leaves the sixteen grid
    rectangles. *)
Lemma delete_images_grid c :
  canvas_ok c →
  ∃ grid images,
    items c = grid ++ images ∧ item_id <$> grid = seq 1 16 ∧
    Forall grid_item grid ∧ Forall shown_image images ∧
    items (delete_items (ByTag "image") c) = grid.
Proof.
  intros [(grid & images & Hitems & Hids & Hgrid & Himages) _].
  exists grid, images. repeat split; try done.
  unfold delete_items. cbn [items]. rewrite Hitems, filter_app.
  rewrite filter_all.
  - rewrite filter_none; [by rewrite app_nil_r|].
    eapply Forall_impl; [done|]. intros it [Htags _] Hn. apply Hn.
    simpl. rewrite Htags. by apply list_elem_of_singleton.
  - eapply Forall_impl; [done|]. intros it Hit. simpl.
    destruct (grid_item_tags _ Hit) as [-> | [-> | ->]];
      intros Hn; apply (bool_decide_pack _) in Hn; vm_compute in Hn; done.
Qed.

Lemma images_shown_delete c :
  canvas_ok c → images_shown (delete_items (ByTag "image") c) = [].
Proof.
  intros (grid & images & _ & _ & Hgrid & _ & Hdel)%delete_images_grid.
  unfold images_shown. rewrite Hdel.
  clear Hdel. induction Hgrid as [|it l (Him & _) _ IH]; [done|].
  cbn [omap list_omap]. by rewrite Him.
Qed.

(** X4.  Throughout a play the images displayed on the canvas are the
    buffered images, in the order they were revealed. *)
Theorem X4_images_shown_are_buffered find_closest g :
  reachable find_closest g →
  images_shown (canvas g) = image_to_compare g.
Proof.
  revert g. apply play_induction.
  - by intros fs rs argv out g (fast & folder & listing & _ & _ & _ & _ & ->)%main_object.
  - intros g _ HP. rewrite play_epilogue_eq. simpl. by destruct (is_game_over g).
  - intros g i image x y _ HP _ _ _.
    assert (images_shown (canvas (reveal i image x y g))
            = image_to_compare (reveal i image x y g)) as Hrev.
    { unfold reveal. simpl.
      by rewrite images_shown_create_image, images_shown_itemconfigure, HP. }
    destruct (match_check_cases (reveal i image x y g))
      as [(a & b & Hb & ->)|[_ ->]]; [|done].
    unfold evaluated.
    destruct (bool_decide (a = b)); case_bool_decide; simpl in *;
      by rewrite ?images_shown_itemconfigure.
  - intros g ms q (_ & _ & Hc) HP _. rewrite disappear_eq. simpl.
    by rewrite images_shown_itemconfigure, images_shown_delete.
  - intros g _ HP. rewrite restart_eq. simpl.
    by rewrite images_shown_itemconfigure.
Qed.

Lemma X4_witness :
  let g := run sample_find_closest [click_on 1; RestartButton; click_on 3]
             (sample_game []) in
  images_shown (canvas g) = image_to_compare g.
Proof.
  apply (X4_images_shown_are_buffered sample_find_closest), sample_reachable.
Defined.

(** ** Slots under the canvas operations *)

Lemma first_item_id c i it : first_item c (ById i) = Some it → item_id it = i.
Proof.
  intros H. by apply head_Some_elem_of, list_elem_of_filter in H as [? _].
Qed.

(** Tagging the item with id [j] as [selected] makes slot [j] Revealed
    and leaves the other slots. *)
Lemma slot_state_itemconfigure_id c j k s :
  slot_state c k = Some s →
  slot_state (itemconfigure (ById j) None (Some "selected") c) k
  = Some (if decide (k = j) then Revealed else s).
Proof.
  intros (it & Hit & Hs)%slot_state_tags. unfold slot_state.
  rewrite first_item_itemconfigure, Hit. simpl.
  rewrite (first_item_id _ _ _ Hit). by case_decide.
Qed.

(** A new image item leaves the slots. *)
Lemma slot_state_create_image x y image tag c k s :
  slot_state c k = Some s →
  slot_state (create_image x y image tag c) k = Some s.
Proof.
  intros (it & Hit & Hs)%slot_state_tags. unfold slot_state, first_item in *.
  cbn [create_image items]. rewrite filter_app.
  destruct (filter (matches (ById k)) (items c)) as [|it' l]; [done|].
  simpl in *. injection Hit as ->. by rewrite Hs.
Qed.

Lemma slot_state_reveal g i image x y k s :
  slot_state (canvas g) k = Some s →
  slot_state (canvas (reveal i image x y g)) k
  = Some (if decide (k = i) then Revealed else s).
Proof.
  intros Hs. unfold reveal. simpl.
  by apply slot_state_create_image, slot_state_itemconfigure_id.
Qed.

(** The evaluation of a pair moves the Revealed slots to Matched when
    the two images are the same, and leaves every slot otherwise. *)
Lemma slot_state_evaluated a b g k s :
  slot_state (canvas g) k = Some s →
  slot_state (canvas (evaluated a b g)) k
  = Some (if bool_decide (a = b)
          then match s with Revealed => Matched | _ => s end
          else s).
Proof.
  intros Hs. unfold evaluated.
  destruct (bool_decide (a = b)); case_bool_decide; simpl; try done;
    rewrite (slot_state_itemconfigure _ _ _ _ _ _ Hs); by destruct s.
Qed.

Lemma slot_state_disappear g k s :
  slot_state (canvas g) k = Some s →
  slot_state (canvas (disappear g).2) k
  = Some (match s with Revealed => Concealed | _ => s end).
Proof.
  intros Hs. rewrite disappear_eq. simpl.
  rewrite (slot_state_itemconfigure _ _ _ _ _ s)
    by (by apply slot_state_delete_images).
  by destruct s.
Qed.

(** A slot that is to be revealed is Concealed. *)
Lemma revealable_concealed g i :
  canvas_ok (canvas g) → revealable g i →
  slot_state (canvas g) i = Some Concealed.
Proof.
  intros Hc Hr. destruct (revealable_first_item _ _ Hr) as (it & Hit & Htags).
  destruct (available_is_grid _ _ _ Hc Hit Htags) as (_ & _ & _ & Ht).
  unfold slot_state. rewrite Hit. simpl. by rewrite Ht.
Qed.

(** ** Matched slots *)

(** X5.  A Matched slot stays Matched under every click and every expiry
    of the timer: only RESTART takes a slot out of the Matched state. *)
Theorem X5_matched_stays_matched find_closest g ev i :
  game_ok g → ev ≠ RestartButton →
  slot_state (canvas g) i = Some Matched →
  slot_state (canvas (handle find_closest ev g).2) i = Some Matched.
Proof.
  intros Hg Hev Hs. pose proof Hg as (_ & Hdeck & Hc).
  assert (∀ g0, canvas (play_epilogue g0).2 = canvas g0) as Hep.
  { intros g0. rewrite play_epilogue_eq. simpl. by destruct (is_game_over g0). }
  destruct ev as [x y| |]; [|done|]; cbn [handle].
  - destruct (play_cases find_closest g x y Hc Hdeck)
      as [[_ ->]|[(j & _ & _ & ->)|(j & image & cx & cy & _ & Hr & _ & _ & ->)]].
    + done.
    + by rewrite Hep.
    + rewrite Hep.
      assert (i ≠ j) as Hij.
      { intros ->. rewrite (revealable_concealed _ _ Hc Hr) in Hs. done. }
      pose proof (slot_state_reveal g j image cx cy i _ Hs) as Hrev.
      rewrite decide_False in Hrev by done.
      destruct (match_check_cases (reveal j image cx cy g))
        as [(a & b & _ & ->)|[_ ->]]; [|done].
      rewrite (slot_state_evaluated _ _ _ _ _ Hrev). by case_bool_decide.
  - rewrite bind_gets. destruct (after_queue g) as [|[ms []] q]; [done|].
    rewrite bind_modify. cbn [run_callback].
    by rewrite (slot_state_disappear _ _ Matched).
Qed.

Lemma X5_witness :
  let g := run sample_find_closest [click_on 1; click_on 9] (sample_game []) in
  slot_state (canvas (handle sample_find_closest TimerFires g).2) 1 = Some Matched.
Proof.
  apply (X5_matched_stays_matched sample_find_closest).
  - apply (reachable_game_ok sample_find_closest), sample_reachable.
  - discriminate.
  - vm_compute. reflexivity.
Defined.

(** ** The delayed callback *)

(** X6.  [disappear] returns every Revealed slot to Concealed and leaves
    the other slots; it empties the buffer and leaves score and attempt
    count; on a canvas of the shape a play keeps, no image is shown and
    only the sixteen rectangles remain afterwards. *)
Theorem X6_disappear_conceals g :
  canvas_ok (canvas g) →
  let g' := (disappear g).2 in
  (∀ i s, slot_state (canvas g) i = Some s →
     slot_state (canvas g') i
     = Some (match s with Revealed => Concealed | _ => s end)) ∧
  image_to_compare g' = [] ∧
  images_shown (canvas g') = [] ∧
  length (items (canvas g')) = 16%nat ∧
  score g' = score g ∧ count g' = count g ∧
  folder_images g' = folder_images g.
Proof.
  intros Hc. cbn zeta. split; [intros i s; apply slot_state_disappear|].
  rewrite disappear_eq.
  cbn [snd canvas image_to_compare score count folder_images
       set_canvas set_image_to_compare].
  split; [done|]. split.
  - by rewrite images_shown_itemconfigure, images_shown_delete.
  - split; [|done].
    rewrite <- (length_fmap item_id), itemconfigure_ids.
    destruct (delete_images_grid _ Hc) as (grid & images & _ & Hids & _ & _ & ->).
    by rewrite Hids.
Qed.

Lemma X6_witness :
  let g := run sample_find_closest [click_on 1; click_on 2] (sample_game []) in
  let g' := (disappear g).2 in
  (∀ i s, slot_state (canvas g) i = Some s →
     slot_state (canvas g') i
     = Some (match s with Revealed => Concealed | _ => s end)) ∧
  image_to_compare g' = [] ∧
  images_shown (canvas g') = [] ∧
  length (items (canvas g')) = 16%nat ∧
  score g' = score g ∧ count g' = count g ∧
  folder_images g' = folder_images g.
Proof.
  apply X6_disappear_conceals.
  by destruct (reachable_game_ok sample_find_closest _
                 (sample_reachable [click_on 1; click_on 2])) as (_ & _ & ?).
Defined.

(** ** The label *)

(** Once all slots are Matched nothing is to be revealed. *)
Lemma game_over_not_revealable g i :
  canvas_ok (canvas g) → is_game_over g = true → ¬ revealable g i.
Proof.
  intros Hc Hover Hr.
  destruct (revealable_first_item _ _ Hr) as (it & Hit & Htags).
  destruct (available_is_grid _ _ _ Hc Hit Htags) as (_ & _ & Hi & _).
  pose proof (revealable_concealed _ _ Hc Hr) as Hs.
  apply bool_decide_eq_true in Hover.
  rewrite (proj1 (game_over_all_matched _ Hc) Hover i Hi) in Hs. done.
Qed.

(** The end of the game outlasts the expiry of the timer. *)
Lemma game_over_disappear g :
  game_ok g → is_game_over g = true → is_game_over (disappear g).2 = true.
Proof.
  intros Hg Hover. pose proof (game_ok_disappear _ Hg) as (_ & _ & Hc').
  destruct Hg as (_ & _ & Hc).
  apply bool_decide_eq_true in Hover. apply bool_decide_eq_true.
  apply (game_over_all_matched _ Hc'). intros i Hi.
  by rewrite (slot_state_disappear _ _ Matched)
    by (by apply (game_over_all_matched _ Hc)).
Qed.

(** X7.  Throughout a play the label shows the current score in the
    style set at the start, or, when all sixteen slots are Matched, the
    Game Over text with the current score and number of tries in the
    style [game_over] sets. *)
Theorem X7_label_shows_score find_closest g :
  reachable find_closest g →
  scoreboard g = score_label g ∨
  (scoreboard g = game_over_label g ∧ is_game_over g = true).
Proof.
  revert g. apply play_induction.
  - intros fs rs argv out g (fast & folder & listing & _ & _ & _ & _ & ->)%main_object.
    by left.
  - intros g _ HP. rewrite play_epilogue_eq.
    destruct (is_game_over g) eqn:Hover; cbn [snd].
    + right. split; [done|]. unfold is_game_over in *. done.
    + destruct HP as [HP|[_ HP]]; [by left | congruence].
  - intros g i image x y (_ & _ & Hc) HP Hr _ _.
    destruct HP as [HP|[_ Hover]];
      [|by destruct (game_over_not_revealable g i Hc Hover)].
    left.
    destruct (match_check_cases (reveal i image x y g))
      as [(a & b & _ & ->)|[_ ->]]; [|done].
    unfold evaluated, score_label.
    destruct (bool_decide (a = b)); case_bool_decide; simpl; rewrite HP; done.
  - intros g ms q Hg HP _.
    assert (game_ok (set_after_queue q g)) as Hg'
      by (destruct Hg as (? & ? & ?); done).
    destruct HP as [HP|[HP Hover]].
    + left. by rewrite disappear_eq.
    + right. split; [by rewrite disappear_eq|].
      by apply game_over_disappear.
  - intros g _ _. left. by rewrite restart_eq.
Qed.

Lemma X7_witness :
  let g := run sample_find_closest (thirteen_pairs ++ [click_on 1; click_on 9])
             (sample_game []) in
  scoreboard g = score_label g ∨
  (scoreboard g = game_over_label g ∧ is_game_over g = true).
Proof. apply (X7_label_shows_score sample_find_closest), sample_reachable. Defined.

(** ** An accepted click *)

(** X8.  A click resolved to a slot that is to be revealed is handled
    without an exception and buffers the image the deck holds at the
    slot's index.  As the first of a pair it makes the slot Revealed and
    leaves the attempt count; as the second it adds one to the count and
    makes the slot Matched if the two buffered images are the same,
    Revealed if not. *)
Theorem X8_click_reveals_deck_image find_closest g x y i :
  game_ok g →
  getitem (find_closest (canvas g) x y) 0 = Some i →
  revealable g i →
  let r := play find_closest x y g in
  ∃ image,
    getitem (folder_images g) (Z.of_nat i - 1) = Some image ∧
    r.1 = inr () ∧
    image_to_compare r.2 = image_to_compare g ++ [image] ∧
    match image_to_compare g with
    | [] => count r.2 = count g ∧ slot_state (canvas r.2) i = Some Revealed
    | first :: _ =>
        count r.2 = count g + 1 ∧
        slot_state (canvas r.2) i
        = Some (if bool_decide (first = image) then Matched else Revealed)
    end.
Proof.
  intros Hg Hi Hr. pose proof Hg as (_ & Hdeck & Hc). cbn zeta.
  assert (∀ g0, play_epilogue g0 =
            (inr (), (play_epilogue g0).2) ∧
          canvas (play_epilogue g0).2 = canvas g0 ∧
          image_to_compare (play_epilogue g0).2 = image_to_compare g0 ∧
          count (play_epilogue g0).2 = count g0) as Hep.
  { intros g0. rewrite play_epilogue_eq. simpl. by destruct (is_game_over g0). }
  destruct (play_cases find_closest g x y Hc Hdeck)
    as [[Hn _]|[(j & Hj & Hnr & _)|(j & image & cx & cy & Hj & _ & _ & Him & ->)]];
    [congruence| |].
  { rewrite Hi in Hj. by injection Hj as <-. }
  rewrite Hi in Hj. injection Hj as <-.
  exists image. split; [done|].
  destruct (Hep (match_check (reveal i image cx cy g)).2) as (-> & -> & -> & ->).
  split; [done|].
  pose proof (revealable_concealed _ _ Hc Hr) as Hs.
  pose proof (slot_state_reveal g i image cx cy i _ Hs) as Hrev.
  rewrite decide_True in Hrev by done.
  destruct Hr as (Hlen & _).
  destruct (image_to_compare g) as [|first [|? ?]] eqn:Hb; [| |simpl in Hlen; lia].
  - rewrite match_check_skip by (simpl; rewrite Hb; simpl; lia).
    simpl. by rewrite Hb.
  - rewrite (match_check_evaluated _ first image) by (simpl; by rewrite Hb).
    cbn [snd]. split; [|split].
    + unfold evaluated.
      destruct (bool_decide (first = image)); case_bool_decide; simpl;
        by rewrite Hb.
    + unfold evaluated. simpl.
      destruct (bool_decide (first = image)); case_bool_decide; done.
    + by rewrite (slot_state_evaluated _ _ _ _ _ Hrev).
Qed.

Lemma X8_witness :
  let g := run sample_find_closest [click_on 1] (sample_game []) in
  let r := play sample_find_closest 315 65 g in
  ∃ image,
    getitem (folder_images g) (Z.of_nat 9 - 1) = Some image ∧
    r.1 = inr () ∧
    image_to_compare r.2 = image_to_compare g ++ [image] ∧
    match image_to_compare g with
    | [] => count r.2 = count g ∧ slot_state (canvas r.2) 9 = Some Revealed
    | first :: _ =>
        count r.2 = count g + 1 ∧
        slot_state (canvas r.2) 9
        = Some (if bool_decide (first = image) then Matched else Revealed)
    end.
Proof.
  apply (X8_click_reveals_deck_image sample_find_closest _ 315 65 9).
  - apply (reachable_game_ok sample_find_closest), sample_reachable.
  - vm_compute. reflexivity.
  - split; [vm_compute; lia|]. split; vm_compute; reflexivity.
Defined.

(** ** Restart *)

(** X9.  [restart] completes on every object; it sets the score to 100,
    the attempt count to 0 and the label to the score in the starting
    style, rearranges the deck without changing what is in it, and turns
    every Matched slot Concealed.  It leaves the slots that are not
    Matched, the buffer, the images shown, the registered callbacks and
    what was printed. *)
Theorem X9_restart_effect g :
  let r := restart g in
  r.1 = inr () ∧
  score r.2 = 100 ∧ count r.2 = 0 ∧
  scoreboard r.2 = score_label r.2 ∧
  folder_images r.2 ≡ₚ folder_images g ∧
  length (folder_images r.2) = length (folder_images g) ∧
  (∀ i s, slot_state (canvas g) i = Some s →
     slot_state (canvas r.2) i
     = Some (match s with Matched => Concealed | _ => s end)) ∧
  image_to_compare r.2 = image_to_compare g ∧
  images_shown (canvas r.2) = images_shown (canvas g) ∧
  after_queue r.2 = after_queue g ∧
  stdout r.2 = stdout g ∧
  image_list r.2 = image_list g.
Proof.
  rewrite restart_eq.
  cbn [fst snd score count scoreboard folder_images canvas image_to_compare
       after_queue stdout image_list set_canvas shuffle_folder_images
       set_scoreboard set_count set_score].
  repeat split.
  - apply shuffle_perm.
  - apply shuffle_length.
  - intros i s Hs. rewrite (slot_state_itemconfigure _ _ _ _ _ _ Hs).
    by destruct s.
  - apply images_shown_itemconfigure.
Qed.

(** ** The colours of the slots *)

Ltac fields :=
  cbn [score color timer count image_list image_dict image_to_compare
       folder_images canvas scoreboard random_state after_queue stdout
       set_score set_count set_image_to_compare set_canvas set_scoreboard
       set_after_queue set_stdout shuffle_folder_images fst snd].

Lemma item_kinds c it :
  canvas_ok c → it ∈ items c → grid_item it ∨ shown_image it.
Proof.
  intros [(grid & images & Hitems & _ & Hgrid & Himages) _] Hin.
  rewrite Hitems in Hin. apply elem_of_app in Hin as [Hin|Hin];
    [left | right]; eapply Forall_forall; done.
Qed.

(** On a canvas of the shape a play keeps, an id up to 16 names one
    item. *)
Lemma unique_grid_item c it i :
  canvas_ok c → it ∈ items c → item_id it = i → (i ≤ 16)%nat →
  first_item c (ById i) = Some it.
Proof.
  intros [(grid & images & Hitems & Hids & Hgrid & Himages) _] Hin Hid Hi.
  unfold first_item. rewrite Hitems in *.
  apply elem_of_app in Hin as [Hin|Hin].
  - apply list_elem_of_lookup in Hin as [k Hk].
    assert ((item_id <$> grid) !! k = Some i) as Hik
      by (by rewrite list_lookup_fmap, Hk; simpl; rewrite Hid).
    rewrite Hids in Hik. apply lookup_seq in Hik as [-> Hlt].
    rewrite (first_item_grid _ _ 1 16) by (done || lia).
    by replace (1 + k - 1)%nat with k by lia.
  - assert (shown_image it) as [_ Hgt] by (eapply Forall_forall; done). lia.
Qed.

Lemma slot_has_state c i :
  canvas_ok c → (1 ≤ i ≤ 16)%nat → ∃ s, slot_state c i = Some s.
Proof.
  intros [(grid & images & Hitems & Hids & Hgrid & Himages) _] Hi.
  assert (length grid = 16%nat) as Hlen
    by (rewrite <- (length_fmap item_id), Hids; done).
  unfold slot_state, first_item. rewrite Hitems.
  rewrite (first_item_grid _ _ 1 16) by (done || lia).
  destruct (lookup_lt_is_Some_2 grid (i - 1)%nat ltac:(lia)) as [it Hit].
  rewrite Hit. simpl.
  assert (grid_item it) as (_ & _ & [s Hs]) by (eapply Forall_lookup_1; done).
  eauto.
Qed.

Lemma coloured_itemconfigure color sel fill tag c :
  Forall (slot_coloured color) (items c) →
  (∀ it, it ∈ items c → matches sel it →
     slot_coloured color (configure_item fill (Some tag) it)) →
  Forall (slot_coloured color) (items (itemconfigure sel fill (Some tag) c)).
Proof.
  intros Hall Hconf. unfold itemconfigure. cbn [items].
  apply Forall_fmap, Forall_forall. intros it Hin. simpl.
  case_decide; [by apply Hconf|]. by eapply Forall_forall in Hall.
Qed.

Lemma coloured_new_state color fill tag it s :
  state_of_tags (tcl_list tag) = Some s →
  default (item_fill it) fill = fill_of color s →
  slot_coloured color (configure_item fill (Some tag) it).
Proof. intros Hs Hfill s'. simpl. rewrite Hs. by intros [= <-]. Qed.

Lemma coloured_evaluated a b g :
  Forall (slot_coloured (color g)) (items (canvas g)) →
  Forall (slot_coloured (color (evaluated a b g)))
         (items (canvas (evaluated a b g))).
Proof.
  intros Hall. unfold evaluated.
  destruct (bool_decide (a = b)); case_bool_decide; fields; try done;
    (apply coloured_itemconfigure; [done|]; intros it _ _;
     by apply (coloured_new_state _ _ _ _ Matched)).
Qed.

(** Throughout a play every item is drawn as its state demands, and the
    colour is one of the three choices. *)
Lemma reachable_slot_coloured find_closest g :
  reachable find_closest g →
  color g ∈ color_choices ∧
  Forall (slot_coloured (color g)) (items (canvas g)).
Proof.
  revert g. apply play_induction.
  - intros fs rs argv out g (fast & folder & listing & _ & _ & Hc & _ & ->)%main_object.
    split; [done|]. simpl. repeat constructor; by intros s [= <-].
  - intros g _ HP. rewrite play_epilogue_eq. simpl. by destruct (is_game_over g).
  - intros g i image x y (_ & _ & Hc) [Hcol Hall] Hr Hi _.
    assert (color (reveal i image x y g) ∈ color_choices ∧
            Forall (slot_coloured (color (reveal i image x y g)))
                   (items (canvas (reveal i image x y g)))) as [Hcol' Hall'].
    { split; [done|]. unfold reveal. fields. unfold create_image at 1.
      cbn [items]. apply Forall_app. split.
      - apply (coloured_itemconfigure (color g) (ById i) None "selected");
          [done|]. intros it Hin Hid.
        apply (coloured_new_state _ _ _ _ Revealed); [done|]. simpl.
        destruct Hr as (_ & _ & Hfill). unfold itemcget_fill in Hfill.
        rewrite (unique_grid_item _ it i Hc Hin Hid) in Hfill by lia. done.
      - apply Forall_singleton. by intros s. }
    destruct (match_check_cases (reveal i image x y g))
      as [(a & b & _ & ->)|[_ ->]]; [|done].
    split; [|by apply coloured_evaluated].
    unfold evaluated. destruct (bool_decide (a = b)); case_bool_decide; done.
  - intros g ms q (_ & _ & Hc) [Hcol Hall] _. rewrite disappear_eq.
    split; [done|]. fields.
    apply (coloured_itemconfigure (color g) (ByTag "selected") None "box current").
    + unfold delete_items. cbn [items]. apply Forall_forall.
      intros it [_ Hin]%list_elem_of_filter. by eapply Forall_forall in Hall.
    + intros it Hin Hsel.
      apply (coloured_new_state _ _ _ _ Concealed); [done|]. simpl.
      pose proof Hin as [_ Hin']%list_elem_of_filter.
      destruct (item_kinds _ _ (canvas_ok_delete_images _ Hc) Hin) as [Hg|[Ht _]].
      * simpl in Hsel.
        assert (item_tags it = ["selected"]) as Htags.
        { destruct (grid_item_tags _ Hg) as [H | [H | H]]; [|done|];
            rewrite H in Hsel; apply (bool_decide_pack _) in Hsel;
            vm_compute in Hsel; done. }
        eapply Forall_forall in Hall; [|done].
        apply (Hall Revealed). by rewrite Htags.
      * simpl in Hsel. rewrite Ht in Hsel.
        apply (bool_decide_pack _) in Hsel. vm_compute in Hsel. done.
  - intros g _ [Hcol Hall]. rewrite restart_eq. split; [done|]. fields.
    apply coloured_itemconfigure; [done|]. intros it _ _.
    by apply (coloured_new_state _ _ _ _ Concealed).
Qed.

(** X10.  Throughout a play every slot that is Matched is filled with
    the player's colour, which is blue, green or magenta, and every slot
    that is Concealed or Revealed is filled yellow. *)
Theorem X10_slot_colours find_closest g :
  reachable find_closest g →
  color g ∈ color_choices ∧
  ∀ i s, slot_state (canvas g) i = Some s →
    itemcget_fill (canvas g) (ById i) = fill_of (color g) s.
Proof.
  intros [Hcol Hall]%reachable_slot_coloured.
  split; [done|]. intros i s (it & Hit & Hs)%slot_state_tags.
  unfold itemcget_fill. rewrite Hit. simpl.
  eapply Forall_forall in Hall; [by apply Hall|].
  by apply head_Some_elem_of, list_elem_of_filter in Hit as [_ ?].
Qed.

Lemma X10_witness :
  let g := run sample_find_closest [click_on 1; click_on 9; TimerFires; click_on 2]
             (sample_game []) in
  color g ∈ color_choices ∧
  ∀ i s, slot_state (canvas g) i = Some s →
    itemcget_fill (canvas g) (ById i) = fill_of (color g) s.
Proof. apply (X10_slot_colours sample_find_closest), sample_reachable. Defined.

(** ** The board between selections *)

(** Throughout a play, while the buffer is empty no item carries the tag
    [selected]. *)
Lemma reachable_no_selected find_closest g :
  reachable find_closest g →
  image_to_compare g = [] →
  Forall (λ it, "selected" ∉ item_tags it) (items (canvas g)).
Proof.
  revert g.
  apply (play_induction find_closest
           (λ g, image_to_compare g = [] →
                 Forall (λ it, "selected" ∉ item_tags it) (items (canvas g)))).
  - intros fs rs argv out g (fast & folder & listing & _ & _ & _ & _ & ->)%main_object _.
    simpl. repeat constructor;
      intros Hn; apply (bool_decide_pack _) in Hn; vm_compute in Hn; done.
  - intros g _ HP. rewrite play_epilogue_eq. simpl. by destruct (is_game_over g).
  - intros g j image x y _ _ _ _ _ Hb.
    destruct (match_check_cases (reveal j image x y g))
      as [(a & b & _ & Heq)|[_ Heq]]; rewrite Heq in Hb.
    + unfold evaluated in Hb.
      destruct (bool_decide (a = b)); case_bool_decide; simpl in Hb;
        by destruct (image_to_compare g).
    + simpl in Hb. by destruct (image_to_compare g).
  - intros g ms q _ _ _ _. rewrite disappear_eq. simpl.
    apply Forall_fmap, Forall_forall. intros it _. simpl.
    case_decide as Hsel; [|done]. simpl.
    intros Hn. apply (bool_decide_pack _) in Hn. vm_compute in Hn. done.
  - intros g _ HP Hb. rewrite restart_eq in *. simpl in *.
    apply Forall_fmap. eapply Forall_impl; [by apply HP|].
    intros it Hit. simpl. case_decide; [|done]. simpl.
    intros Hn. apply (bool_decide_pack _) in Hn. vm_compute in Hn. done.
Qed.

Lemma no_selected_not_revealed c i :
  Forall (λ it, "selected" ∉ item_tags it) (items c) →
  slot_state c i ≠ Some Revealed.
Proof.
  intros Hall (it & Hit & Hs%tags_of_state)%slot_state_tags.
  eapply Forall_forall in Hall;
    [|by apply head_Some_elem_of, list_elem_of_filter in Hit as [_ ?]].
  destruct Hall. rewrite Hs. by apply list_elem_of_singleton.
Qed.

(** X11.  Throughout a play, while the buffer is empty no slot is
    Revealed: each of the sixteen slots is Concealed or Matched. *)
Theorem X11_no_revealed_slot_without_selection find_closest g :
  reachable find_closest g →
  image_to_compare g = [] →
  ∀ i, (1 ≤ i ≤ 16)%nat →
    slot_state (canvas g) i = Some Concealed ∨
    slot_state (canvas g) i = Some Matched.
Proof.
  intros Hr Hb i Hi.
  pose proof (reachable_no_selected _ _ Hr Hb) as Hall.
  destruct (reachable_game_ok _ _ Hr) as (_ & _ & Hc).
  destruct (slot_has_state _ i Hc Hi) as [s Hs].
  pose proof (no_selected_not_revealed _ i Hall) as Hnr.
  rewrite Hs in *. destruct s; [by left|done|by right].
Qed.

Lemma X11_witness :
  let g := run sample_find_closest [click_on 1; click_on 2; RestartButton; TimerFires]
             (sample_game []) in
  slot_state (canvas g) 1 = Some Concealed ∨
  slot_state (canvas g) 1 = Some Matched.
Proof.
  apply (X11_no_revealed_slot_without_selection sample_find_closest).
  - apply sample_reachable.
  - vm_compute. reflexivity.
  - lia.
Defined.

(** ** The command line *)


(** ** What the validator counts and what the constructor loads *)

Lemma rfind_none c l : c ∉ l → rfind c l = None.
Proof.
  induction l as [|a l IH]; [done|]. intros [Hne Hl]%not_elem_of_cons.
  simpl. rewrite IH by done. by rewrite bool_decide_eq_false_2.
Qed.

Lemma rfind_last c l1 l2 :
  c ∉ l2 → rfind c (l1 ++ c :: l2) = Some (length l1).
Proof.
  intros Hl2. induction l1 as [|a l1 IH]; simpl.
  - rewrite rfind_none by done. by rewrite bool_decide_eq_true_2.
  - by rewrite IH.
Qed.

(** X13.  For a name without [/], as a directory holds them:
    [directory_type] counts it exactly when it ends in [.gif] and some
    character before that ending is not a dot, while [__init__] loads it
    exactly when it ends in [.gif].  So every counted name is loaded, and
    the names loaded without being counted are the ones made of dots
    followed by [gif]. *)
Theorem X13_counted_and_loaded_names n :
  "/"%char ∉ chars n →
  ((splitext n).2 = ".gif" ↔
   ∃ pre, chars n = pre ++ chars ".gif" ∧ ∃ c, c ∈ pre ∧ c ≠ "."%char) ∧
  (endswith n ".gif" = true ↔ ∃ pre, chars n = pre ++ chars ".gif") ∧
  (endswith n ".gif" = true ∧ (splitext n).2 ≠ ".gif" ↔
   ∃ dots, chars n = dots ++ chars ".gif" ∧ Forall (λ c, c = "."%char) dots).
Proof.
  intros Hslash.
  assert ((splitext n).2 = ".gif" ↔
          ∃ pre, chars n = pre ++ chars ".gif" ∧ ∃ c, c ∈ pre ∧ c ≠ "."%char)
    as Hcounted.
  { unfold splitext. rewrite (rfind_none _ _ Hslash). split.
    - destruct (rfind "." (chars n)) as [d|]; [|done].
      rewrite drop_0, Nat.sub_0_r.
      destruct (_ && _) eqn:Hcond; [|done]. cbn [snd]. intros Hext.
      apply (f_equal String.list_ascii_of_string) in Hext.
      rewrite String.list_ascii_of_string_of_list_ascii in Hext.
      exists (take d (chars n)). split.
      + fold (chars ".gif") in Hext. by rewrite <- Hext, take_drop.
      + apply andb_true_iff in Hcond as [_ Hex].
        apply existsb_exists in Hex as (c & Hin & Hc).
        exists c. split; [by apply list_elem_of_In|].
        apply negb_true_iff, bool_decide_eq_false in Hc. done.
    - intros (pre & Hpre & c & Hin & Hc). rewrite Hpre.
      change (chars ".gif") with ("."%char :: chars "gif").
      rewrite rfind_last
        by (intros Hn; apply (bool_decide_pack _) in Hn; vm_compute in Hn; done).
      rewrite drop_0, Nat.sub_0_r, take_app_length, drop_app_length.
      rewrite bool_decide_eq_true_2 by lia.
      replace (existsb _ pre) with true; [done|].
      symmetry. apply existsb_exists. exists c.
      split; [by apply list_elem_of_In|].
      by apply negb_true_iff, bool_decide_eq_false. }
  assert (endswith n ".gif" = true ↔ ∃ pre, chars n = pre ++ chars ".gif")
    as Hloaded by (unfold endswith; by rewrite bool_decide_eq_true).
  split; [done|]. split; [done|]. split.
  - intros [(pre & Hpre)%Hloaded Hnot]. exists pre. split; [done|].
    apply Forall_forall. intros c Hin.
    destruct (decide (c = "."%char)) as [|Hne]; [done|].
    destruct Hnot. apply Hcounted. eauto.
  - intros (dots & Hdots & Hall). split; [apply Hloaded; eauto|].
    intros (pre & Hpre & c & Hin & Hc)%Hcounted.
    rewrite Hdots in Hpre. apply app_inv_tail in Hpre as ->.
    eapply Forall_forall in Hall; done.
Qed.

Lemma X13_witness :
  ((splitext "...gif").2 = ".gif" ↔
   ∃ pre, chars "...gif" = pre ++ chars ".gif" ∧ ∃ c, c ∈ pre ∧ c ≠ "."%char) ∧
  (endswith "...gif" ".gif" = true ↔ ∃ pre, chars "...gif" = pre ++ chars ".gif") ∧
  (endswith "...gif" ".gif" = true ∧ (splitext "...gif").2 ≠ ".gif" ↔
   ∃ dots, chars "...gif" = dots ++ chars ".gif" ∧ Forall (λ c, c = "."%char) dots).
Proof.
  apply (X13_counted_and_loaded_names "...gif").
  intros Hn. apply (bool_decide_pack _) in Hn. vm_compute in Hn. done.
Defined.

(** ** The game at its start *)

(** What an accepted command line guarantees. *)
Lemma get_arguments_accepted fs argv out fast chosen folder :
  get_arguments fs argv = (out, inr (fast, chosen, folder)) →
  out = [] ∧ fast = arg_fast argv ∧ chosen = arg_color argv ∧
  ∃ file, fs !! folder = Some (Directory file).
Proof.
  unfold get_arguments. case_bool_decide; [|done].
  unfold directory_type, path_exists, listdir.
  destruct (fs !! path_join curdir (arg_image_folder argv)) as [[|file]|] eqn:Hp.
  - by rewrite bool_decide_eq_true_2 by eauto.
  - rewrite bool_decide_eq_true_2 by eauto.
    case_bool_decide; [|done]. intros [= <- <- <- <-]. eauto.
  - by rewrite bool_decide_eq_false_2 by (by intros [? ?]).
Qed.

(** X14.  When [get_arguments] accepts the command line, [main] builds a
    game object, images being taken to load: the score is 100, the
    attempt count 0, the buffer empty, no callback registered, nothing
    printed; the colour is the one chosen and the delay 1000 ms with
    [-f] and 3000 ms without; the label shows the score; and the canvas
    holds sixteen rectangles, every slot Concealed and yellow, and no
    image. *)
Theorem X14_main_builds_game fs random_state argv out fast chosen folder :
  get_arguments fs argv = (out, inr (fast, chosen, folder)) →
  ∃ g, main fs random_state argv = ([], inr g) ∧
    score g = 100 ∧ count g = 0 ∧
    image_to_compare g = [] ∧ after_queue g = [] ∧ stdout g = [] ∧
    color g = arg_color argv ∧
    timer g = (if arg_fast argv then 1000 else 3000) ∧
    scoreboard g = score_label g ∧
    length (items (canvas g)) = 16%nat ∧
    images_shown (canvas g) = [] ∧
    ∀ i, (1 ≤ i ≤ 16)%nat →
      slot_state (canvas g) i = Some Concealed ∧
      itemcget_fill (canvas g) (ById i) = "yellow".
Proof.
  intros Hga.
  destruct (get_arguments_accepted _ _ _ _ _ _ Hga)
    as (-> & -> & -> & file & Hfs).
  unfold main. rewrite Hga. unfold MatchGame_init, listdir. rewrite Hfs.
  destruct (load_images file) as [d il].
  destruct (shuffle (il ++ il) random_state) as [fi rs'].
  eexists. split; [done|]. simpl.
  repeat split; try done; [by destruct (arg_fast argv)| |];
    do 17 (destruct i as [|i]; [try lia; try done|]); lia.
Qed.

Lemma X14_witness :
  ∃ g, main sample_fs [7%nat; 2%nat] (sample_argv "tiles") = ([], inr g) ∧
    score g = 100 ∧ count g = 0 ∧
    image_to_compare g = [] ∧ after_queue g = [] ∧ stdout g = [] ∧
    color g = arg_color (sample_argv "tiles") ∧
    timer g = (if arg_fast (sample_argv "tiles") then 1000 else 3000) ∧
    scoreboard g = score_label g ∧
    length (items (canvas g)) = 16%nat ∧
    images_shown (canvas g) = [] ∧
    ∀ i, (1 ≤ i ≤ 16)%nat →
      slot_state (canvas g) i = Some Concealed ∧
      itemcget_fill (canvas g) (ById i) = "yellow".
Proof.
  apply (X14_main_builds_game sample_fs [7%nat; 2%nat] (sample_argv "tiles")
           [] true "blue" "./tiles").
  vm_compute. reflexivity.
Defined.

(** ** Which clicks are accepted *)

(** X15.  Throughout a play the three tests of [play] come to this: an
    item is revealed exactly when it is a Concealed slot and fewer than
    two images are buffered.  The test for the yellow fill never decides
    anything. *)
Theorem X15_accepted_iff_concealed find_closest g i :
  reachable find_closest g →
  (revealable g i ↔
   (length (image_to_compare g) ≤ 1)%nat ∧
   slot_state (canvas g) i = Some Concealed) ∧
  (itemcget_tag (canvas g) (ById i) = "box current" →
   itemcget_fill (canvas g) (ById i) = "yellow").
Proof.
  intros Hr. destruct (reachable_game_ok _ _ Hr) as (_ & _ & Hc).
  destruct (reachable_slot_coloured _ _ Hr) as [_ Hall].
  assert (itemcget_tag (canvas g) (ById i) = "box current" →
          slot_state (canvas g) i = Some Concealed ∧
          itemcget_fill (canvas g) (ById i) = "yellow") as Htag.
  { unfold itemcget_tag, itemcget_fill, slot_state.
    destruct (first_item (canvas g) (ById i)) as [it|] eqn:Hit; [|done].
    simpl. intros Htags.
    destruct (available_is_grid _ _ _ Hc Hit Htags) as (_ & _ & _ & Ht).
    rewrite Ht. split; [done|].
    eapply Forall_forall in Hall;
      [|by apply head_Some_elem_of, list_elem_of_filter in Hit as [_ ?]].
    apply (Hall Concealed). by rewrite Ht. }
  split; [split|by intros [_ ?]%Htag].
  - intros (Hlen & [Hs _]%Htag & _). done.
  - intros (Hlen & (it & Hit & Hs)%slot_state_tags).
    apply tags_of_state in Hs.
    assert (itemcget_tag (canvas g) (ById i) = "box current") as Ht
      by (unfold itemcget_tag; rewrite Hit; simpl; by rewrite Hs).
    split; [done|]. split; [done|]. by apply Htag.
Qed.

Lemma X15_witness :
  let g := run sample_find_closest [click_on 1] (sample_game []) in
  (revealable g 2 ↔
   (length (image_to_compare g) ≤ 1)%nat ∧
   slot_state (canvas g) 2 = Some Concealed) ∧
  (itemcget_tag (canvas g) (ById 2) = "box current" →
   itemcget_fill (canvas g) (ById 2) = "yellow").
Proof. apply (X15_accepted_iff_concealed sample_find_closest), sample_reachable. Defined.

(** ** What a click and the timer never do *)

(** X16.  A click or an expiry of the timer never changes the deck, the
    loaded images, the colour, the delay or the state of the generator;
    it never raises the score, lowers it by at most 10, and raises the
    attempt count by at most one. *)
Theorem X16_play_keeps_the_deal find_closest g ev :
  game_ok g → ev ≠ RestartButton →
  let g' := (handle find_closest ev g).2 in
  folder_images g' = folder_images g ∧
  image_list g' = image_list g ∧
  color g' = color g ∧ timer g' = timer g ∧
  random_state g' = random_state g ∧
  score g - 10 ≤ score g' ≤ score g ∧
  count g ≤ count g' ≤ count g + 1.
Proof.
  intros Hg Hev. pose proof Hg as (_ & Hdeck & Hc). cbn zeta.
  assert (∀ g0 g1,
    folder_images g1 = folder_images g0 ∧ image_list g1 = image_list g0 ∧
    color g1 = color g0 ∧ timer g1 = timer g0 ∧
    random_state g1 = random_state g0 ∧
    score g0 - 10 ≤ score g1 ≤ score g0 ∧ count g0 ≤ count g1 ≤ count g0 + 1 →
    folder_images (play_epilogue g1).2 = folder_images g0 ∧
    image_list (play_epilogue g1).2 = image_list g0 ∧
    color (play_epilogue g1).2 = color g0 ∧
    timer (play_epilogue g1).2 = timer g0 ∧
    random_state (play_epilogue g1).2 = random_state g0 ∧
    score g0 - 10 ≤ score (play_epilogue g1).2 ≤ score g0 ∧
    count g0 ≤ count (play_epilogue g1).2 ≤ count g0 + 1) as Hep.
  { intros g0 g1 H. rewrite play_epilogue_eq. simpl. by destruct (is_game_over g1). }
  destruct ev as [x y| |]; [|done|]; cbn [handle].
  - destruct (play_cases find_closest g x y Hc Hdeck)
      as [[_ ->]|[(j & _ & _ & ->)|(j & image & cx & cy & _ & _ & _ & _ & ->)]].
    + simpl. repeat split; lia.
    + apply Hep. repeat split; lia.
    + apply Hep.
      destruct (match_check_cases (reveal j image cx cy g))
        as [(a & b & _ & ->)|[_ ->]].
      * unfold evaluated.
        destruct (bool_decide (a = b)); case_bool_decide; simpl;
          repeat split; lia.
      * simpl. repeat split; lia.
  - rewrite bind_gets. destruct (after_queue g) as [|[ms []] q].
    + simpl. repeat split; lia.
    + rewrite bind_modify. cbn [run_callback]. rewrite disappear_eq. simpl.
      repeat split; lia.
Qed.

Lemma X16_witness :
  let g := run sample_find_closest (thirteen_pairs ++ [click_on 1]) (sample_game []) in
  let g' := (handle sample_find_closest (click_on 9) g).2 in
  folder_images g' = folder_images g ∧
  image_list g' = image_list g ∧
  color g' = color g ∧ timer g' = timer g ∧
  random_state g' = random_state g ∧
  score g - 10 ≤ score g' ≤ score g ∧
  count g ≤ count g' ≤ count g + 1.
Proof.
  apply (X16_play_keeps_the_deal sample_find_closest).
  - apply (reachable_game_ok sample_find_closest), sample_reachable.
  - discriminate.
Defined.

(** ** An attempt from start to end *)

(** A click resolved to a slot that is to be revealed, in full. *)
Lemma accepted_click find_closest g x y i :
  game_ok g →
  getitem (find_closest (canvas g) x y) 0 = Some i →
  revealable g i →
  ∃ image cx cy,
    getitem (folder_images g) (Z.of_nat i - 1) = Some image ∧
    (play find_closest x y g).2
    = (play_epilogue (match_check (reveal i image cx cy g)).2).2.
Proof.
  intros (_ & Hdeck & Hc) Hi Hr.
  destruct (play_cases find_closest g x y Hc Hdeck)
    as [[Hn _]|[(j & Hj & Hnr & _)|(j & image & cx & cy & Hj & _ & _ & Him & ->)]].
  - congruence.
  - rewrite Hi in Hj. by injection Hj as <-.
  - rewrite Hi in Hj. injection Hj as <-. by exists image, cx, cy.
Qed.

Lemma epilogue_frame g :
  canvas (play_epilogue g).2 = canvas g ∧
  image_to_compare (play_epilogue g).2 = image_to_compare g ∧
  count (play_epilogue g).2 = count g ∧
  after_queue (play_epilogue g).2 = after_queue g ∧
  folder_images (play_epilogue g).2 = folder_images g ∧
  timer (play_epilogue g).2 = timer g.
Proof. rewrite play_epilogue_eq. simpl. by destruct (is_game_over g). Qed.

(** X17.  From an empty buffer, two accepted clicks and the expiry of
    the timer make one attempt: the two images buffered are those the
    deck holds at the two slots, the attempt count goes up by one, and
    afterwards the buffer is empty, no callback is registered and no image
    is shown; the two slots are Matched if the images are the same and
    Concealed again if not, and every other slot is as it was. *)
Theorem X17_attempt_round_trip find_closest g x1 y1 i x2 y2 j :
  reachable find_closest g →
  image_to_compare g = [] →
  getitem (find_closest (canvas g) x1 y1) 0 = Some i →
  revealable g i →
  let g1 := (play find_closest x1 y1 g).2 in
  getitem (find_closest (canvas g1) x2 y2) 0 = Some j →
  revealable g1 j →
  let g2 := (play find_closest x2 y2 g1).2 in
  let g3 := (handle find_closest TimerFires g2).2 in
  ∃ a b,
    getitem (folder_images g) (Z.of_nat i - 1) = Some a ∧
    getitem (folder_images g) (Z.of_nat j - 1) = Some b ∧
    image_to_compare g2 = [a; b] ∧
    count g3 = count g + 1 ∧
    image_to_compare g3 = [] ∧ after_queue g3 = [] ∧
    images_shown (canvas g3) = [] ∧
    ∀ k, (1 ≤ k ≤ 16)%nat →
      slot_state (canvas g3) k
      = if decide (k = i ∨ k = j)
        then Some (if bool_decide (a = b) then Matched else Concealed)
        else slot_state (canvas g) k.
Proof.
  intros Hr Hb Hi Hri g1 Hj Hrj g2 g3.
  pose proof (reachable_game_ok _ _ Hr) as Hg.
  assert (reachable find_closest g1) as Hr1
    by apply (reachable_event _ _ (Button1 x1 y1) Hr).
  pose proof (reachable_game_ok _ _ Hr1) as Hg1.
  assert (reachable find_closest g2) as Hr2
    by apply (reachable_event _ _ (Button1 x2 y2) Hr1).
  pose proof (reachable_game_ok _ _ Hr2) as (_ & _ & Hc2).
  destruct (reachable_pending _ _ Hr) as (_ & _ & Hq).
  specialize (Hq ltac:(by rewrite Hb)).
  pose proof (reachable_no_selected _ _ Hr Hb) as Hnosel.
  (* the first click *)
  destruct (accepted_click find_closest g x1 y1 i Hg Hi Hri)
    as (a & cx & cy & Ha & Hg1eq).
  fold g1 in Hg1eq.
  rewrite match_check_skip in Hg1eq by (simpl; rewrite Hb; simpl; lia).
  cbn [snd] in Hg1eq.
  destruct (epilogue_frame (reveal i a cx cy g)) as (Hcv1 & Hb1 & Hn1 & Hq1 & Hf1 & _).
  rewrite <- Hg1eq in Hcv1, Hb1, Hn1, Hq1, Hf1.
  simpl in Hb1, Hn1, Hq1, Hf1. rewrite Hb in Hb1. simpl in Hb1.
  (* the second click *)
  destruct (accepted_click find_closest g1 x2 y2 j Hg1 Hj Hrj)
    as (b & cx' & cy' & Hbj & Hg2eq).
  fold g2 in Hg2eq.
  rewrite (match_check_evaluated _ a b) in Hg2eq by (simpl; by rewrite Hb1).
  cbn [snd] in Hg2eq.
  destruct (epilogue_frame (evaluated a b (reveal j b cx' cy' g1)))
    as (Hcv2 & Hb2 & Hn2 & Hq2 & _ & _).
  rewrite <- Hg2eq in Hcv2, Hb2, Hn2, Hq2.
  assert (image_to_compare g2 = [a; b]) as Hbuf2.
  { rewrite Hb2. unfold evaluated.
    destruct (bool_decide (a = b)); case_bool_decide; simpl; by rewrite Hb1. }
  assert (count g2 = count g + 1) as Hcount2.
  { rewrite Hn2. unfold evaluated.
    destruct (bool_decide (a = b)); case_bool_decide; simpl; by rewrite Hn1. }
  assert (after_queue g2 = [(timer g1, Disappear)]) as Hqueue2.
  { rewrite Hq2. unfold evaluated.
    destruct (bool_decide (a = b)); case_bool_decide; simpl;
      by rewrite Hq1, Hq. }
  (* the timer *)
  assert (g3 = (disappear (set_after_queue [] g2)).2) as Hg3.
  { unfold g3. cbn [handle]. by rewrite bind_gets, Hqueue2, bind_modify. }
  exists a, b. rewrite Hf1 in Hbj.
  split; [done|]. split; [done|]. split; [done|].
  rewrite Hg3, disappear_eq.
  cbn [snd count image_to_compare after_queue canvas set_canvas
       set_image_to_compare set_after_queue].
  split; [done|]. split; [done|]. split; [done|]. split.
  { by rewrite images_shown_itemconfigure, images_shown_delete. }
  intros k Hk.
  destruct Hg as (_ & _ & Hc).
  destruct (slot_has_state _ k Hc Hk) as [s Hs].
  pose proof (no_selected_not_revealed _ k Hnosel) as Hnr.
  pose proof (slot_state_reveal g i a cx cy k s Hs) as Hs1.
  rewrite <- Hcv1 in Hs1.
  pose proof (slot_state_reveal g1 j b cx' cy' k _ Hs1) as Hs1'.
  pose proof (slot_state_evaluated a b _ k _ Hs1') as Hs2.
  rewrite <- Hcv2 in Hs2.
  pose proof (slot_state_disappear (set_after_queue [] g2) k _ Hs2) as Hs3.
  rewrite disappear_eq in Hs3.
  cbn [snd canvas set_canvas set_image_to_compare set_after_queue] in Hs3.
  rewrite Hs3, Hs. clear Hs3 Hs2 Hs1' Hs1.
  destruct (decide (k = j)) as [->|Hkj].
  - rewrite decide_True by auto. by case_bool_decide.
  - destruct (decide (k = i)) as [->|Hki].
    + rewrite decide_True by auto. by case_bool_decide.
    + rewrite decide_False by tauto.
      rewrite Hs in Hnr. case_bool_decide; by destruct s.
Qed.

Lemma X17_witness :
  let g := sample_game [] in
  let g1 := (play sample_find_closest 65 65 g).2 in
  let g2 := (play sample_find_closest 65 190 g1).2 in
  let g3 := (handle sample_find_closest TimerFires g2).2 in
  ∃ a b,
    getitem (folder_images g) (Z.of_nat 1 - 1) = Some a ∧
    getitem (folder_images g) (Z.of_nat 2 - 1) = Some b ∧
    image_to_compare g2 = [a; b] ∧
    count g3 = count g + 1 ∧
    image_to_compare g3 = [] ∧ after_queue g3 = [] ∧
    images_shown (canvas g3) = [] ∧
    ∀ k, (1 ≤ k ≤ 16)%nat →
      slot_state (canvas g3) k
      = if decide (k = 1%nat ∨ k = 2%nat)
        then Some (if bool_decide (a = b) then Matched else Concealed)
        else slot_state (canvas g) k.
Proof.
  apply (X17_attempt_round_trip sample_find_closest (sample_game [])
           65 65 1 65 190 2).
  - apply (sample_reachable []).
  - vm_compute. reflexivity.
  - vm_compute. reflexivity.
  - split; [vm_compute; lia|]. split; vm_compute; reflexivity.
  - vm_compute. reflexivity.
  - split; [vm_compute; lia|]. split; vm_compute; reflexivity.
Defined.
